(** * Shallow embedding of pkg/grammar (Jenkinsfile to GitHub Actions YAML)

    Strings are Stdlib [string]s over ASCII, byte-indexed as the Go code
    indexes them.  A Go runtime panic (nil dereference, slice bounds) and a
    returned [error] are kept apart in the outcome type [res]. *)

From Stdlib Require Import String Ascii List Bool Arith Lia ZArith NArith.
From Stdlib Require Import Permutation Numbers.DecimalString.
Import ListNotations.
Open Scope list_scope.
Open Scope string_scope.
Set Warnings "-register-all".

(** ** Outcomes of Go code: a value, a returned error, or a runtime panic. *)

Inductive res (A : Type) : Type :=
| Ok (a : A)
| Err (msg : string)
| Panic (msg : string).
Arguments Ok {A} a.
Arguments Err {A} msg.
Arguments Panic {A} msg.

Definition res_bind {A B} (r : res A) (k : A -> res B) : res B :=
  match r with
  | Ok a => k a
  | Err e => Err e
  | Panic p => Panic p
  end.

Declare Scope res_scope.
Notation "x <- c ;; k" := (res_bind c (fun x => k))
  (at level 61, c at next level, right associativity) : res_scope.
Delimit Scope res_scope with res.

Definition nil_deref : string := "invalid memory address or nil pointer dereference".

(** ** Go's [strings] package, on ASCII strings *)
Module GoStrings.

Definition nl : string := String "010"%char EmptyString.
Definition dq : string := String "034"%char EmptyString.

Definition HasPrefix (s p : string) : bool := String.prefix p s.

Fixpoint Contains (s sub : string) : bool :=
  if String.prefix sub s then true
  else match s with
       | EmptyString => false
       | String _ r => Contains r sub
       end.

(** [strings.ReplaceAll] for a non-empty [old]: leftmost, non-overlapping.
    [skip] counts the characters of a match still to be dropped. *)
Fixpoint replace_from (old new : string) (skip : nat) (s : string) : string :=
  match s with
  | EmptyString => EmptyString
  | String c r =>
      match skip with
      | S k => replace_from old new k r
      | O => if String.prefix old s
             then new ++ replace_from old new (String.length old - 1) r
             else String c (replace_from old new 0 r)
      end
  end.

(** With an empty [old], Go inserts [new] before every rune and at the end. *)
Fixpoint insert_everywhere (new s : string) : string :=
  match s with
  | EmptyString => new
  | String c r => new ++ String c (insert_everywhere new r)
  end.

Definition ReplaceAll (s old new : string) : string :=
  match old with
  | EmptyString => insert_everywhere new s
  | _ => replace_from old new 0 s
  end.

(** [strings.Replace(s, old, new, 1)] for a non-empty [old]. *)
Fixpoint Replace1 (s old new : string) : string :=
  if String.prefix old s
  then new ++ String.substring (String.length old) (String.length s) s
  else match s with
       | EmptyString => EmptyString
       | String c r => String c (Replace1 r old new)
       end.

(** [strings.Split(s, sep)] for a single-character separator. *)
Fixpoint split_char (sep : ascii) (s : string) : list string :=
  match s with
  | EmptyString => [EmptyString]
  | String c r =>
      let rest := split_char sep r in
      if Ascii.eqb c sep then EmptyString :: rest
      else match rest with
           | w :: ws => String c w :: ws
           | [] => [String c EmptyString]
           end
  end.

Definition SplitLines (s : string) : list string := split_char "010"%char s.

Definition Join (l : list string) (sep : string) : string := String.concat sep l.

Fixpoint Repeat (s : string) (n : nat) : string :=
  match n with
  | O => EmptyString
  | S k => s ++ Repeat s k
  end.

Fixpoint in_cutset (c : ascii) (cutset : string) : bool :=
  match cutset with
  | EmptyString => false
  | String d r => Ascii.eqb c d || in_cutset c r
  end.

Fixpoint TrimLeft (s cutset : string) : string :=
  match s with
  | EmptyString => EmptyString
  | String c r => if in_cutset c cutset then TrimLeft r cutset else s
  end.

Fixpoint rev_string (s : string) : string :=
  match s with
  | EmptyString => EmptyString
  | String c r => rev_string r ++ String c EmptyString
  end.

Definition TrimRight (s cutset : string) : string :=
  rev_string (TrimLeft (rev_string s) cutset).

(** [strings.Trim(s, cutset)] *)
Definition Trim (s cutset : string) : string := TrimRight (TrimLeft s cutset) cutset.

(** The ASCII part of [unicode.IsSpace]: tab, LF, VT, FF, CR, space. *)
Definition ascii_space : string :=
  String "009"%char (String "010"%char (String "011"%char
    (String "012"%char (String "013"%char (String " "%char EmptyString))))).

Definition TrimSpace (s : string) : string := Trim s ascii_space.

Definition TrimPrefix (s p : string) : string :=
  if String.prefix p s
  then String.substring (String.length p) (String.length s - String.length p) s
  else s.

(** [fmt.Sprintf("%d", n)] for naturals. *)
Definition itoa (n : nat) : string := NilEmpty.string_of_uint (Nat.to_uint n).
Definition ntoa (n : N) : string := NilEmpty.string_of_uint (N.to_uint n).

Definition mem_string (x : string) (l : list string) : bool :=
  existsb (String.eqb x) l.

End GoStrings.
Import GoStrings.

(** ** Constants of grammar.go *)

Definition indent : string := "  ".
Definition newlinePlaceholder : string := "^^NEWLINE^^".
Definition backtickPlaceholder : string := "^^BACKTICK^^".
Definition doubleQuotePlaceholder : string := "^^DOUBLEQUOTE^^".
Definition singleQuotePlaceholder : string := "^^SINGLEQUOTE^^".
Definition multilineDoubleQuotePlaceholder : string := "^^MULTILINEDOUBLE^^".
Definition multilineSingleQuotePlaceholder : string := "^^MULTILINESINGLE^^".

Definition unusedEnvVars : list string :=
  ["PREVIEW_VERSION"; "APP_NAME"; "DOCKER_REGISTRY"; "DOCKER_REGISTRY_ORG"].

(** Go source strings use [\\$]; the strings below hold the single backslash. *)
Definition stepsToRemove : list string :=
  [ "git checkout master";
    "checkout scm";
    "git config --global credential.helper store";
    "jx step git credentials";
    "echo \$(jx-release-version) > VERSION";
    "mvn versions:set -DnewVersion=\$(cat VERSION)";
    "jx step tag --version \$(cat VERSION)" ].

(** ** The AST (the participle model structs)

    A [*float64] or [*int64] field of [Value] is a heap cell: the model keeps
    its address, because [Value.ToString] formats the pointer with [%d]. *)

Inductive Value : Type :=
| VString (s : string)
| VNumber (cell : N)
| VInt (cell : N) (v : Z)
| VBool (b : bool)
| VNone.                 (* every field nil, e.g. the literal [false] *)

Inductive ModelStepArg : Type :=
| Unnamed (v : Value)
| Named (key : string) (v : Value).

Inductive ModelStep : Type :=
| mkStep (Name : string) (Args : list ModelStepArg) (NestedSteps : list ModelStep).

Definition step_name (m : ModelStep) : string := let 'mkStep n _ _ := m in n.
Definition step_args (m : ModelStep) : list ModelStepArg := let 'mkStep _ a _ := m in a.
Definition step_nested (m : ModelStep) : list ModelStep := let 'mkStep _ _ n := m in n.

Record UnsupportedModelBlock := { ub_Name : string; ub_Value : string }.

Record ModelAgent := { Label : string }.

Record ModelEnvironmentEntryValue := {
  StringValue : option string;
  Credential : option string }.

Record ModelEnvironmentEntry := {
  env_Key : string;
  env_Value : ModelEnvironmentEntryValue }.

Record ModelWhen := {
  Branch : string;
  when_Unsupported : list UnsupportedModelBlock }.

Record ModelPostEntry := { Kind : string; post_Steps : list ModelStep }.

Record ModelStageEntry := {
  se_Agent : option ModelAgent;
  se_Environment : list ModelEnvironmentEntry;
  se_Steps : list ModelStep;
  se_Post : list ModelPostEntry;
  se_When : option ModelWhen;
  se_Unsupported : list UnsupportedModelBlock }.

Record ModelStage := { stage_Name : string; Entries : list ModelStageEntry }.

(** Stages are held by pointer ([[]*ModelStage]); [ptr] is an address into
    the [heap] of stage cells, which [prOrReleasePipelineAsYAML] writes. *)
Definition ptr := nat.
Definition heap := list ModelStage.

Record ModelPipelineEntry := {
  pe_Agent : option ModelAgent;
  pe_Environment : list ModelEnvironmentEntry;
  pe_Stages : list ptr;
  pe_Post : list ModelPostEntry;
  pe_Unsupported : list UnsupportedModelBlock }.

Record Model := { Pipeline : list ModelPipelineEntry }.

(** ** First populated entry of a kind *)

Fixpoint first_nonempty {E A} (f : E -> list A) (l : list E) : list A :=
  match l with
  | [] => []
  | e :: r => match f e with [] => first_nonempty f r | x => x end
  end.

Definition Model_getPost (m : Model) := first_nonempty pe_Post (Pipeline m).
Definition Model_getEnvironment (m : Model) := first_nonempty pe_Environment (Pipeline m).
Definition Model_getStages (m : Model) := first_nonempty pe_Stages (Pipeline m).
Definition Model_getUnsupported (m : Model) := first_nonempty pe_Unsupported (Pipeline m).

Definition Stage_getEnvironment (m : ModelStage) := first_nonempty se_Environment (Entries m).
Definition Stage_getUnsupported (m : ModelStage) := first_nonempty se_Unsupported (Entries m).
Definition Stage_getSteps (m : ModelStage) := first_nonempty se_Steps (Entries m).
Definition Stage_getPost (m : ModelStage) := first_nonempty se_Post (Entries m).

Fixpoint Stage_getWhen_aux (l : list ModelStageEntry) : option ModelWhen :=
  match l with
  | [] => None
  | e :: r => match se_When e with Some w => Some w | None => Stage_getWhen_aux r end
  end.
Definition Stage_getWhen (m : ModelStage) := Stage_getWhen_aux (Entries m).

Definition isDefaultCleanWs (m : ModelPostEntry) : bool :=
  match post_Steps m with
  | [s] => String.eqb (Kind m) "always" && String.eqb (step_name s) "cleanWs"
           && match step_args s with [] => true | _ => false end
  | _ => false
  end.

(** ** Printing of values, arguments and steps *)

Definition Value_ToString (v : Value) : string :=
  match v with
  | VString s => dq ++ s ++ dq
  | VNumber cell => ntoa cell          (* %d of a *float64: the address *)
  | VInt cell _ => ntoa cell           (* %d of a *int64: the address *)
  | VBool b => if b then "true" else "false"
  | VNone => "n/a"
  end.

Definition ModelStepArg_ToString (a : ModelStepArg) : string :=
  match a with
  | Unnamed v => Value_ToString v
  | Named k v => "key: " ++ k ++ ", val: " ++ Value_ToString v
  end.

Definition removeQuotesAndTrim (s : string) : string := Trim s dq.

Definition getArg (m : ModelStep) : string :=
  match step_args m with
  | [a] => removeQuotesAndTrim (ModelStepArg_ToString a)
  | _ => ""
  end.

Fixpoint named_name_arg (l : list ModelStepArg) : option Value :=
  match l with
  | [] => None
  | Named k v :: r => if String.eqb k "name" then Some v else named_name_arg r
  | Unnamed _ :: r => named_name_arg r
  end.

Definition imageFromContainerStep (step : ModelStep) : string :=
  match step_args step with
  | [_] => getArg step
  | args => match named_name_arg args with
            | Some v => removeQuotesAndTrim (Value_ToString v)
            | None => "maven"
            end
  end.

Definition unescapeMultiline (escaped : string) : string :=
  let u := ReplaceAll escaped newlinePlaceholder nl in
  let u := ReplaceAll u "\\" "\" in
  ReplaceAll u backtickPlaceholder "`".

Definition toCurlyStringFromEscaped (escaped : string) : string :=
  "{" ++ unescapeMultiline escaped ++ "}".

Definition toOriginalGroovy (m : ModelStep) : string :=
  let lines :=
    match step_nested m with
    | [] =>
        match step_args m with
        | [] => [step_name m ++ "()"]
        | [Unnamed _] =>
            if Contains (getArg m) newlinePlaceholder
            then [step_name m ++ " " ++ toCurlyStringFromEscaped (getArg m)]
            else [step_name m ++ " " ++ getArg m]
        | [Named k v] => [step_name m ++ "(" ++ k ++ ": " ++ Value_ToString v ++ ")"]
        | args =>
            let argStrings :=
              map (fun a => match a with
                            | Unnamed v => Value_ToString v
                            | Named k v => k ++ ": " ++ Value_ToString v
                            end) args in
            [step_name m ++ "(" ++ Join argStrings ", " ++ ")"]
        end
    | _ => []
    end in
  Join lines nl.

(** ** Flattening, argument translation and step rendering *)

Definition indentLine (line : string) (count : nat) : string :=
  if String.eqb (TrimSpace line) "" then line
  else Repeat indent count ++ line.

Record stepDirAndImage := { sd_step : ModelStep; sd_dir : string; sd_image : string }.

Fixpoint nestedStepsWithDirAndImage (m : ModelStep) (baseDir baseImage : string)
  : list stepDirAndImage :=
  match m with
  | mkStep name args nested =>
      match nested with
      | [] => [ {| sd_step := m; sd_dir := baseDir; sd_image := baseImage |} ]
      | _ =>
          let baseDir' := if String.eqb name "dir" then Trim (getArg m) "./" else baseDir in
          let baseImage' :=
            if String.eqb name "dir" then baseImage
            else if String.eqb name "container" then imageFromContainerStep m
            else baseImage in
          (fix go (l : list ModelStep) : list stepDirAndImage :=
             match l with
             | [] => []
             | s :: r => (nestedStepsWithDirAndImage s baseDir' baseImage' ++ go r)%list
             end) nested
      end
  end.

Definition versionParam : string := "${inputs.params.version}".

(** The regexp [\\\$\(cat .*?VERSION\)]: a match opens with [\$(cat ] and
    the lazy [.*?] (no newline) stops at the first [VERSION)].
    [version_close t] is the length of the shortest [.*?] part in [t]. *)
Fixpoint version_close (t : string) : option nat :=
  if String.prefix "VERSION)" t then Some 0
  else match t with
       | EmptyString => None
       | String c r => if Ascii.eqb c "010"%char then None
                       else option_map S (version_close r)
       end.

Definition catOpen : string := "\$(cat ".

(** [ReplaceAllString] of that regexp, leftmost-first, non-overlapping;
    the template has no valid [${name}] (it contains dots), so it is literal. *)
Fixpoint replace_cat_dollar (skip : nat) (s : string) : string :=
  match s with
  | EmptyString => EmptyString
  | String c r =>
      match skip with
      | S k => replace_cat_dollar k r
      | O =>
          let after := String.substring 7 (String.length s - 7) s in
          match (if String.prefix catOpen s then version_close after else None) with
          | Some k => versionParam ++ replace_cat_dollar (7 + k + 8 - 1) r
          | None => String c (replace_cat_dollar 0 r)
          end
      end
  end.

Definition toMultilineQuote (escaped : string) : list string :=
  if Contains escaped multilineSingleQuotePlaceholder
     || Contains escaped multilineDoubleQuotePlaceholder
  then
    let unescaped := ReplaceAll escaped multilineDoubleQuotePlaceholder "" in
    let unescaped := ReplaceAll unescaped multilineSingleQuotePlaceholder "" in
    "|" :: map TrimSpace (SplitLines (unescapeMultiline unescaped))
  else [escaped].

Definition getJxArg (m : ModelStep) : list string :=
  let rawArg := getArg m in
  let fixedArg := replace_cat_dollar 0 rawArg in
  let fixedArg := ReplaceAll fixedArg "`cat VERSION`" versionParam in
  let fixedArg := ReplaceAll fixedArg doubleQuotePlaceholder dq in
  let fixedArg := ReplaceAll fixedArg singleQuotePlaceholder "'" in
  toMultilineQuote fixedArg.

Definition shouldRemove (m : ModelStep) : bool :=
  match step_args m with
  | [a] => String.eqb (step_name m) "sh"
           && existsb (fun n => String.eqb (Trim (ModelStepArg_ToString a) dq) n) stepsToRemove
  | _ => false
  end.

Definition linesForInvalidStep (step : ModelStep) (reason : string) (ind : nat)
  : list string :=
  ([indentLine ("# The Jenkins Pipeline step " ++ step_name step ++ " cannot be translated directly.") (ind + 2)]
   ++ (if String.eqb reason ""
       then [indentLine "# You may want to consider adding a shell script to your repository that replicates its behavior." (ind + 2)]
       else [indentLine ("# " ++ reason) (ind + 2)])
   ++ [indentLine "# Original step from Jenkinsfile:" (ind + 2)]
   ++ map (fun l => indentLine ("# " ++ l) (ind + 2)) (SplitLines (toOriginalGroovy step))
   ++ [indentLine ("run: echo 'Invalid step " ++ step_name step ++ ", failing' && exit 1") (ind + 2)])%list.

Definition reasonAdditional : string :=
  "Additional parameters to the Jenkins Pipeline sh step are not supported".
Definition reasonNamed : string :=
  "Named parameters to the Jenkins Pipeline sh step are not supported".

(** The lines of one flattened step, and whether it raised an issue. *)
Definition stepLinesFor (image : string) (ind : nat) (s : stepDirAndImage)
  : list string * bool :=
  let st := sd_step s in
  if String.eqb (step_name st) "sh" || String.eqb (step_name st) "echo" then
    match step_args st with
    | [Unnamed _] =>
        let jxArgs := getJxArg st in
        let runLines :=
          if String.eqb (step_name st) "echo" then
            [indentLine ("run: " ++ step_name st ++ " " ++ Join jxArgs " ") (ind + 2)]
          else match jxArgs with
               | [a] => [indentLine ("run: " ++ a) (ind + 2)]
               | a :: rest => indentLine ("run: " ++ a) (ind + 2)
                                :: map (fun l => indentLine l (ind + 3)) rest
               | [] => []   (* unreachable: toMultilineQuote never returns [] *)
               end in
        ((runLines
          ++ (if String.eqb (sd_image s) image then []
              else [indentLine ("image: " ++ sd_image s) ind])
          ++ (if String.eqb (sd_dir s) "" then []
              else [indentLine ("working-directory: ./" ++ sd_dir s) (ind + 2)]))%list, false)
    | [Named _ _] => (linesForInvalidStep st reasonNamed ind, true)
    | _ => (linesForInvalidStep st reasonAdditional ind, true)
    end
  else (linesForInvalidStep st "" ind, true).

Fixpoint stepsLines (image : string) (ind : nat) (l : list stepDirAndImage)
  : list string * bool :=
  match l with
  | [] => ([], false)
  | s :: r =>
      let '(single, iss) := stepLinesFor image ind s in
      let '(rest, iss') := stepsLines image ind r in
      ((match single with [] => [] | _ => [Join single nl] end) ++ rest, iss || iss')%list
  end.

(** The default image: [maven], unless the first top-level step is a
    [container] step. *)
Definition stageDefaultImage (m : ModelStage) : string :=
  match Stage_getSteps m with
  | s0 :: _ => if String.eqb (step_name s0) "container" then imageFromContainerStep s0
               else "maven"
  | [] => "maven"
  end.

Definition stageBaseSteps (m : ModelStage) (image : string) : list stepDirAndImage :=
  flat_map (fun s => nestedStepsWithDirAndImage s "" image) (Stage_getSteps m).

Definition Stage_toImageAndSteps (m : ModelStage) (ind : nat)
  : string * list string * bool :=
  let image := stageDefaultImage m in
  let baseSteps := stageBaseSteps m image in
  let stepsToInclude := filter (fun s => negb (shouldRemove (sd_step s))) baseSteps in
  let '(stepLines, issues) := stepsLines image ind stepsToInclude in
  (image, stepLines, issues).

(** ** Environment entries *)

(** [ToEnv]: [Ok (vars, isInvalid)], or the panic of [*m.Value.StringValue]
    when the entry holds a credential (its [StringValue] is nil). *)
Definition ToEnv (m : ModelEnvironmentEntry) : res (list (list (string * string)) * bool) :=
  if mem_string (env_Key m) unusedEnvVars then Ok ([], false)
  else match StringValue (env_Value m) with
       | Some v => if Contains v "$" then Ok ([], true)
                   else Ok ([[(env_Key m, v)]], false)
       | None => Panic nil_deref
       end.

Definition ModelEnvironmentEntryValue_ToString (m : ModelEnvironmentEntryValue) : string :=
  match StringValue m, Credential m with
  | Some s, _ => s
  | None, Some c => c
  | None, None => "n/a"
  end.

Definition containsRealEnvLines (lines : list string) : bool :=
  existsb (fun l => negb (HasPrefix l "#")) lines.

(** ** Heap of stage cells, and a state-and-error monad over it *)

Definition get_stage (h : heap) (p : ptr) : res ModelStage :=
  match nth_error h p with Some s => Ok s | None => Panic nil_deref end.

Fixpoint set_nth {A} (l : list A) (n : nat) (x : A) : list A :=
  match l, n with
  | [], _ => []
  | _ :: r, O => x :: r
  | y :: r, S k => y :: set_nth r k x
  end.

Definition st (A : Type) : Type := heap -> res A * heap.

Definition st_ret {A} (a : A) : st A := fun h => (Ok a, h).

Definition st_bind {A B} (c : st A) (k : A -> st B) : st B :=
  fun h => match c h with
           | (Ok a, h') => k a h'
           | (Err e, h') => (Err e, h')
           | (Panic p, h') => (Panic p, h')
           end.

Definition st_lift {A} (r : res A) : st A := fun h => (r, h).

Definition st_get (p : ptr) : st ModelStage := fun h => (get_stage h p, h).

Definition st_put (p : ptr) (s : ModelStage) : st unit := fun h => (Ok tt, set_nth h p s).

Declare Scope st_scope.
Notation "x <- c ;; k" := (st_bind c (fun x => k))
  (at level 61, c at next level, right associativity) : st_scope.
Delimit Scope st_scope with st.

Definition rename_stage (s : ModelStage) : ModelStage :=
  {| stage_Name := ReplaceAll (stage_Name s) " " "_"; Entries := Entries s |}.

Definition envHasKey (k : string) (l : list ModelEnvironmentEntry) : bool :=
  existsb (fun e => String.eqb (env_Key e) k) l.

Fixpoint dedupEnv (acc : list ModelEnvironmentEntry) (l : list ModelEnvironmentEntry)
  : list ModelEnvironmentEntry :=
  match l with
  | [] => acc
  | e :: r =>
      if negb (envHasKey (env_Key e) acc) && negb (String.eqb (env_Key e) "")
      then dedupEnv (acc ++ [e])%list r else dedupEnv acc r
  end.

Fixpoint numberedSteps (k : nat) (l : list string) : list string :=
  match l with
  | [] => []
  | x :: r => indentLine ("- name: step" ++ itoa k) 3 :: x :: numberedSteps (S k) r
  end.

Section Render.

(** [sigs.k8s.io/yaml.Marshal] on a [[]map[string]string]: library code. *)
Variable yaml_Marshal : list (list (string * string)) -> res string.

(** The order in which [range] visits the dedup map [envVars], given its
    entries in insertion order (Go randomises it). *)
Variable map_iter : list ModelEnvironmentEntry -> list ModelEnvironmentEntry.

Fixpoint envLoop (l : list ModelEnvironmentEntry) (invalidVars : list string)
    (envVars : list (list (string * string))) : res (list string * list (list (string * string))) :=
  match l with
  | [] => Ok (invalidVars, envVars)
  | e :: r =>
      res_bind (ToEnv e) (fun '(converted, isInvalid) =>
        if isInvalid then
          envLoop r (app invalidVars ["# The variable '" ++ env_Key e ++ "' has the value '"
                       ++ ModelEnvironmentEntryValue_ToString (env_Value e)
                       ++ "', which cannot be converted."]) envVars
        else envLoop r invalidVars (app envVars converted))
  end.

Definition toEnvYamlLines (modelVars : list ModelEnvironmentEntry) : res (list string) :=
  res_bind (envLoop modelVars [] []) (fun '(invalidVars, envVars) =>
    match envVars with
    | [] => Ok invalidVars
    | _ => res_bind (yaml_Marshal envVars) (fun bytes =>
             Ok (app invalidVars (SplitLines (TrimSpace bytes))))
    end).

Record prAcc := {
  a_lines : list string;
  a_needs : list string;
  a_env : list ModelEnvironmentEntry;
  a_stepLines : list string;
  a_issues : bool }.

Local Open Scope st_scope.

(** The [for idx, s := range stages] loop; [prev] is [stages[idx-1]]. *)
Fixpoint prLoop (prev : option ptr) (stages : list ptr) (acc : prAcc) : st prAcc :=
  match stages with
  | [] => st_ret acc
  | p :: rest =>
      s0 <- st_get p ;;
      let s := rename_stage s0 in
      _ <- st_put p s ;;
      let lines := app (a_lines acc) [indentLine (stage_Name s ++ ":") 1;
                                      indentLine "runs-on: ubuntu-latest" 2] in
      nl_ <- (match prev with
              | None => st_ret (a_needs acc, lines)
              | Some q =>
                  sq <- st_get q ;;
                  let needs := app (a_needs acc) [stage_Name sq] in
                  st_ret (needs, app lines [indentLine "if: ${{ always() }}" 2;
                                            indentLine ("needs: [" ++ Join needs ", " ++ "]") 2])
              end) ;;
      let '(needs, lines) := nl_ in
      let lines := app lines [indentLine "steps: " 2;
        indentLine "# Checks-out your repository under $GITHUB_WORKSPACE, so your job can access it" 3;
        indentLine "- uses: actions/checkout@v3" 3] in
      let '(_, stageSteps, stageIssues) := Stage_toImageAndSteps s 2 in
      let env := dedupEnv (a_env acc) (Stage_getEnvironment s) in
      prLoop (Some p) rest
        {| a_lines := app lines (numberedSteps 1 stageSteps);
           a_needs := needs;
           a_env := env;
           a_stepLines := app (a_stepLines acc) stageSteps;
           a_issues := a_issues acc || stageIssues |}
  end.

Definition prOrReleasePipelineAsYAML (stages : list ptr) (isRelease : bool)
  : st (string * bool) :=
  acc <- prLoop None stages {| a_lines := []; a_needs := []; a_env := [];
                               a_stepLines := []; a_issues := false |} ;;
  let envList := map_iter (a_env acc) in
  envYamlLines <- st_lift (toEnvYamlLines envList) ;;
  let lines := a_lines acc in
  let lines :=
    match envYamlLines with
    | [] => lines
    | _ => if containsRealEnvLines envYamlLines
           then app lines (indentLine "environment:" 3 :: map (fun l => indentLine l 4) envYamlLines)
           else app lines (map (fun l => indentLine l 3) envYamlLines)
    end in
  let '(lines, issues) :=
    match a_stepLines acc with
    | [] => (app lines [indentLine "# No stages were found that will be run." 1;
                        indentLine "- name: step0" 1;
                        indentLine "runs: echo 'No stages found, failing' && exit 1" 2], true)
    | _ => (lines, a_issues acc)
    end in
  st_ret (Join lines nl, issues).

Definition whenComment (u : UnsupportedModelBlock) (s : ModelStage) : string :=
  indentLine ("# This Jenkinsfile contains the unsupported when condition '" ++ ub_Name u
              ++ "' on stage '" ++ stage_Name s ++ "'. The stage containing it will not be converted.") 2.

(** The [for _, s := range allStages] loop of [ToYaml]: the release and
    pull-request stage lists, the warning lines, and the issue flag. *)
Fixpoint stageLoop (stages : list ptr) (releaseStages prStages : list ptr)
    (lines : list string) (issues : bool) : st (list ptr * list ptr * list string * bool) :=
  match stages with
  | [] => st_ret (releaseStages, prStages, lines, issues)
  | p :: rest =>
      s <- st_get p ;;
      let '(releaseStages, prStages, lines) :=
        match Stage_getWhen s with
        | None => (app releaseStages [p], app prStages [p], lines)
        | Some w =>
            if String.eqb (Branch w) "master" then (app releaseStages [p], prStages, lines)
            else if HasPrefix (Branch w) "PR-" then (releaseStages, app prStages [p], lines)
            else match when_Unsupported w with
                 | [] => (releaseStages, prStages, lines)
                 | us => (releaseStages, prStages, app lines (map (fun u => whenComment u s) us))
                 end
        end in
      let '(lines, issues) :=
        match Stage_getPost s with
        | [] => (lines, issues)
        | _ => (app lines [indentLine ("# The Jenkinsfile contains a post directive for the stage '"
                                      ++ stage_Name s ++ "'. This is not converted.") 2], true)
        end in
      let '(lines, issues) :=
        match Stage_getUnsupported s with
        | [] => (lines, issues)
        | us => (app lines (map (fun u => indentLine ("# The Jenkinsfile contains the " ++ ub_Name u
                      ++ " directive for the stage '" ++ stage_Name s ++ "'. This is not converted.") 2) us),
                 true)
        end in
      stageLoop rest releaseStages prStages lines issues
  end.

Definition headerLines (envLines : list string) : list string :=
  app [indentLine "name: github-action.yaml file Created by m2ga" 0]
 (app (match envLines with
       | [] => []
       | _ => if containsRealEnvLines envLines
              then indentLine "env:" 0 :: map (fun l => indentLine (Replace1 l "- " "") 1) envLines
              else map (fun l => indentLine (Replace1 l "- " "") 0) envLines
       end)
 [indentLine "" 0;
  indentLine "# setting github branch triggers: default-branch." 0;
  indentLine "# for customizing: please check https://docs.github.com/en/actions/using-workflows/workflow-syntax-for-github-actions#on" 0;
  indentLine "on:" 0;
  indentLine "push:" 1; indentLine "branches:" 2; indentLine "- master" 3;
  indentLine "pull_request:" 1; indentLine "branches:" 2; indentLine "- master" 3;
  indentLine "jobs:" 0]).

Definition pipelinePostLines (m : Model) : list string * bool :=
  let post := Model_getPost m in
  (* len(post) > 1 || (len(post) == 1 && !post[0].isDefaultCleanWs()) *)
  if match post with [] => false | [p] => negb (isDefaultCleanWs p) | _ => true end
  then ([indentLine "# The Jenkinsfile contains a post directive for its pipeline. This is not converted." 1], true)
  else ([], false).

Definition pipelineUnsupportedLines (m : Model) : list string :=
  map (fun u => indentLine ("# The Jenkinsfile contains the " ++ ub_Name u
                            ++ " directive for its pipeline. This is not converted.") 1)
      (Model_getUnsupported m).

(** [Model.ToYaml]: the YAML text and the conversion-issues flag; the heap
    of stage cells is threaded because stages are renamed in place. *)
Definition ToYaml (m : Model) : st (string * bool) :=
  envLines <- st_lift (toEnvYamlLines (Model_getEnvironment m)) ;;
  let lines := headerLines envLines in
  let '(postLines, postIssues) := pipelinePostLines m in
  let unsup := pipelineUnsupportedLines m in
  let lines := app lines (app postLines unsup) in
  let issues := postIssues || negb (match Model_getUnsupported m with [] => true | _ => false end) in
  r <- stageLoop (Model_getStages m) [] [] lines issues ;;
  let '(releaseStages, prStages, lines, issues) := r in
  pr <- prOrReleasePipelineAsYAML prStages false ;;
  let '(prLines, hasIssuesInPr) := pr in
  st_ret (Join (app lines [prLines]) nl, issues || hasIssuesInPr).

End Render.

(** ** Block scanner ([GetBlocks]) *)

Definition is_word (c : ascii) : bool :=
  let n := nat_of_ascii c in
  (Nat.leb 48 n && Nat.leb n 57) || (Nat.leb 65 n && Nat.leb n 90)
  || (Nat.leb 97 n && Nat.leb n 122) || Nat.eqb n 95.

(** RE2's [\s]: tab, LF, FF, CR, space. *)
Definition is_re_space (c : ascii) : bool :=
  let n := nat_of_ascii c in
  Nat.eqb n 9 || Nat.eqb n 10 || Nat.eqb n 12 || Nat.eqb n 13 || Nat.eqb n 32.

Fixpoint lead_len (p : ascii -> bool) (s : string) : nat :=
  match s with
  | String c r => if p c then S (lead_len p r) else O
  | EmptyString => O
  end.

Definition drop (n : nat) (s : string) : string := String.substring n (String.length s - n) s.

(** [\s+{] at the start of [t]: its length. *)
Definition ws_brace (t : string) : option nat :=
  let w := lead_len is_re_space t in
  match w, String.get w t with
  | S _, Some "{"%char => Some (w + 1)
  | _, _ => None
  end.

(** [.*?\)\s+{] at the start of [t] (just after the [(]): lazily, the first
    [)] without a newline before it that is followed by [\s+{]. *)
Fixpoint paren_tail (t : string) : option nat :=
  match t with
  | EmptyString => None
  | String c r =>
      if Ascii.eqb c "010"%char then None
      else if Ascii.eqb c ")"%char then
        match ws_brace r with
        | Some n => Some (1 + n)
        | None => option_map S (paren_tail r)
        end
      else option_map S (paren_tail r)
  end.

(** The regexp [(\w+)(\(.*?\))?\s+{] anchored at the start of [s]:
    the length of the name group and of the whole match. *)
Definition block_match_at (s : string) : option (nat * nat) :=
  let w := lead_len is_word s in
  match w with
  | O => None
  | S _ =>
      match drop w s with
      | String "("%char r => option_map (fun n => (w, w + 1 + n)) (paren_tail r)
      | t => option_map (fun n => (w, w + n)) (ws_brace t)
      end
  end.

(** [FindAllStringSubmatchIndex]: (start, end of name, end of match). *)
Fixpoint find_blocks (pos skip : nat) (s : string) : list (nat * nat * nat) :=
  match s with
  | EmptyString => []
  | String _ r =>
      match skip with
      | S k => find_blocks (S pos) k r
      | O => match block_match_at s with
             | Some (w, n) => (pos, pos + w, pos + n) :: find_blocks (S pos) (n - 1) r
             | None => find_blocks (S pos) 0 r
             end
      end
  end.

(** The regexp [^(\s+)\S] on one line: its leading whitespace, if a
    non-space character follows it. *)
Definition lead_ws_match (l : string) : option string :=
  let w := lead_len is_re_space l in
  match w, String.get w l with
  | S _, Some _ => Some (String.substring 0 w l)
  | _, _ => None
  end.

Fixpoint dedent_lines (wsPrefix : string) (ls : list string) : list string :=
  match ls with
  | [] => []
  | l :: r =>
      let wsPrefix :=
        if negb (String.eqb l "") && String.eqb wsPrefix "" then
          match lead_ws_match l with
          | Some m => if Nat.ltb 2 (String.length m) then drop 2 m else m
          | None => wsPrefix
          end
        else wsPrefix in
      TrimPrefix l wsPrefix :: dedent_lines wsPrefix r
  end.

Definition toEscapedFromCurlyString (curly : string) : string :=
  let escaped := Join (dedent_lines "" (SplitLines curly)) newlinePlaceholder in
  ReplaceAll escaped "`" backtickPlaceholder.

Inductive curlyBlock : Type :=
| mkCurly (Name : string) (Nested : list curlyBlock)
          (OriginalText : string) (ReplacementText : string).

(** [s[lo:hi]] with Go's bounds check (indices as [Z], as [closingIndex-1] may be -1). *)
Definition slice (s : string) (lo hi : Z) : res string :=
  if (0 <=? lo)%Z && (lo <=? hi)%Z && (hi <=? Z.of_nat (String.length s))%Z
  then Ok (String.substring (Z.to_nat lo) (Z.to_nat (hi - lo)) s)
  else Panic "slice bounds out of range".

(** The brace-counting loop: the index where the count returns to 0,
    starting from 1; [closingIndex] keeps its zero value when it never does. *)
Fixpoint closing_index (count idx : nat) (s : string) : nat :=
  match s with
  | EmptyString => 0
  | String c r =>
      let count := if Ascii.eqb c "{"%char then S count else count in
      let count := if Ascii.eqb c "}"%char then pred count else count in
      if Nat.eqb count 0 then idx else closing_index count (S idx) r
  end.

Local Open Scope res_scope.

Fixpoint GetBlocks_fuel (fuel : nat) (fullString : string) : res (list curlyBlock) :=
  match fuel with
  | O => Ok []
  | S fuel =>
      (fix go (ms : list (nat * nat * nat)) : res (list curlyBlock) :=
         match ms with
         | [] => Ok []
         | (a, ne, e) :: rest =>
             let name := String.substring a (ne - a) fullString in
             let fromCurly := drop e fullString in
             let ci := Z.of_nat (closing_index 1 0 fromCurly) in
             head <- slice fullString (Z.of_nat a) (Z.of_nat e) ;;
             body <- slice fromCurly 0 (ci + 1) ;;
             head' <- slice fullString (Z.of_nat a) (Z.of_nat e - 1) ;;
             inner <- slice fromCurly 0 ci ;;
             nestedText <- slice fromCurly 0 (ci - 1) ;;
             nested <- GetBlocks_fuel fuel nestedText ;;
             blocks <- go rest ;;
             Ok (mkCurly name nested (head ++ body)
                   (head' ++ "`" ++ toEscapedFromCurlyString inner ++ "`") :: blocks)
         end) (find_blocks 0 0 fullString)
  end.

(** Every recursive call is on a strict prefix of [fromCurly], so
    [length + 1] steps of fuel are never exhausted. *)
Definition GetBlocks (fullString : string) : res (list curlyBlock) :=
  GetBlocks_fuel (S (String.length fullString)) fullString.

Local Close Scope res_scope.

(** ** Quote/comment scanner ([escapeSingleQuotedOrMultilineStrings]) *)

(** [FindAllStringSubmatch] of [(?s)QQQ(.*?)QQQ] for a triple quote [q]:
    the captured bodies, leftmost and non-overlapping. *)
Fixpoint find_triple (q : string) (skip : nat) (s : string) : list string :=
  match s with
  | EmptyString => []
  | String _ r =>
      match skip with
      | S k => find_triple q k r
      | O =>
          if String.prefix q s then
            match String.index 0 q (drop 3 s) with
            | Some k => String.substring 3 k s :: find_triple q (3 + k + 3 - 1) r
            | None => find_triple q 0 r
            end
          else find_triple q 0 r
      end
  end.

Definition sq : string := "'".
Definition tsq : string := "'''".
Definition tdq : string := dq ++ dq ++ dq.

Record scanState := {
  inDoubleQuote : bool;
  inEscapeQuote : bool;
  inSingleLineComment : bool;
  inMultilineComment : bool;
  strInSingleQuote : string;
  sqReplacement : string;
  stringsToReplace : list (string * string) }.

Definition with_flags (s : scanState) (dqf eq slc mlc : bool) : scanState :=
  {| inDoubleQuote := dqf; inEscapeQuote := eq; inSingleLineComment := slc;
     inMultilineComment := mlc; strInSingleQuote := strInSingleQuote s;
     sqReplacement := sqReplacement s; stringsToReplace := stringsToReplace s |}.

Definition with_capture (s : scanState) (str rep : string) : scanState :=
  {| inDoubleQuote := inDoubleQuote s; inEscapeQuote := inEscapeQuote s;
     inSingleLineComment := inSingleLineComment s;
     inMultilineComment := inMultilineComment s; strInSingleQuote := str;
     sqReplacement := rep; stringsToReplace := stringsToReplace s |}.

Definition capture (s : scanState) (str rep : string) : scanState :=
  with_capture s (strInSingleQuote s ++ str) (sqReplacement s ++ rep).

Definition prev_is (prev : option ascii) (c : ascii) : bool :=
  match prev with Some p => Ascii.eqb p c | None => false end.

(** One iteration of the [switch] on the character [c]; [prev] is
    [fullString[i-1]] ([None] when [i = 0]). *)
Definition scan_step (prev : option ascii) (c : ascii) (s : scanState) : scanState :=
  let DQ := inDoubleQuote s in
  let EQ := inEscapeQuote s in
  let SLC := inSingleLineComment s in
  let MLC := inMultilineComment s in
  if Ascii.eqb c "/"%char then
    if negb EQ && negb DQ && prev_is prev "/"%char then with_flags s DQ EQ true MLC
    else if negb EQ && negb DQ && prev_is prev "*"%char && MLC then with_flags s DQ EQ SLC false
    else if EQ && negb MLC then capture s "/" "/"
    else s
  else if Ascii.eqb c "010"%char then
    if SLC then with_flags s DQ EQ false MLC
    else if EQ then capture s nl newlinePlaceholder
    else s
  else if Ascii.eqb c "*"%char then
    if negb SLC && negb EQ && negb DQ && negb MLC && prev_is prev "/"%char
    then with_flags s DQ EQ SLC true
    else if EQ && negb SLC then capture s "*" "*"
    else s
  else if Ascii.eqb c "034"%char then
    if negb SLC && negb MLC then
      if negb EQ && negb DQ then
        (if negb (prev_is prev "\"%char) then with_flags s true EQ SLC MLC else s)
      else if negb EQ && DQ then
        (if negb (prev_is prev "\"%char) then with_flags s false EQ SLC MLC else s)
      else if EQ then
        (if prev_is prev "\"%char then capture s dq dq
         else capture s dq doubleQuotePlaceholder)
      else s
    else s
  else if Ascii.eqb c "'"%char then
    if negb SLC && negb MLC then
      if negb EQ && negb DQ then
        (if negb (prev_is prev "\"%char)
         then with_capture (with_flags s DQ true SLC MLC) sq sq
         else s)
      else if EQ && negb DQ then
        let str := strInSingleQuote s ++ sq in
        if negb (prev_is prev "\"%char) then
          let rep := sqReplacement s ++ sq in
          {| inDoubleQuote := DQ; inEscapeQuote := false; inSingleLineComment := SLC;
             inMultilineComment := MLC; strInSingleQuote := str; sqReplacement := rep;
             stringsToReplace := app (stringsToReplace s) [(str, rep)] |}
        else with_capture s str (sqReplacement s ++ "\" ++ singleQuotePlaceholder)
      else s
    else s
  else if EQ then capture s (String c EmptyString) (String c EmptyString)
  else s.

Fixpoint scan (prev : option ascii) (str : string) (s : scanState) : scanState :=
  match str with
  | EmptyString => s
  | String c r => scan (Some c) r (scan_step prev c s)
  end.

Definition scan0 : scanState :=
  {| inDoubleQuote := false; inEscapeQuote := false; inSingleLineComment := false;
     inMultilineComment := false; strInSingleQuote := ""; sqReplacement := "";
     stringsToReplace := [] |}.

Definition escapeSingleQuotedOrMultilineStrings (fullString : string) : string :=
  let fullString :=
    fold_left (fun fs m => ReplaceAll fs (tsq ++ m ++ tsq)
                 (sq ++ multilineSingleQuotePlaceholder ++ toEscapedFromCurlyString m
                     ++ multilineSingleQuotePlaceholder ++ sq))
              (find_triple tsq 0 fullString) fullString in
  let fullString :=
    fold_left (fun fs m => ReplaceAll fs (tdq ++ m ++ tdq)
                 (dq ++ multilineSingleQuotePlaceholder ++ toEscapedFromCurlyString m
                     ++ multilineSingleQuotePlaceholder ++ dq))
              (find_triple tdq 0 fullString) fullString in
  let final := scan None fullString scan0 in
  fold_left (fun fs p => ReplaceAll fs (fst p) (snd p)) (stringsToReplace final) fullString.

(** The participle text-scanner lexer turns a quoted [Char] token into a
    [String] token via [strconv.Unquote] of the body between double quotes.
    For a body without backslashes, [Unquote] fails exactly when the body
    holds a double quote or a newline. *)
Definition char_token_value (tok : string) : option string :=
  let body := String.substring 1 (String.length tok - 2) tok in
  if HasPrefix tok sq && Nat.leb 2 (String.length tok)
     && String.eqb (String.substring (String.length tok - 1) 1 tok) sq
     && negb (Contains body dq) && negb (Contains body nl) && negb (Contains body "\")
  then Some body else None.

(** ** Escaping of unsupported fields ([ParseJenkinsfile]) *)

Definition unsupportedTopLevelFields : list string :=
  ["triggers"; "options"; "parameters"; "tools"; "libraries"].
Definition unsupportedStageFields : list string :=
  ["stages"; "parallel"; "matrix"; "tools"; "input"; "options"].
Definition unsupportedAgentFields : list string := ["kubernetes"].
Definition supportedWhenFields : list string := ["branch"].
Definition supportedSteps : list string := ["sh"; "dir"].

(** The first field equal to [name] decides; none found gives [isBlacklist]. *)
Fixpoint isSupportedField (name : string) (fields : list string) (isBlacklist : bool) : bool :=
  match fields with
  | [] => isBlacklist
  | f :: r => if String.eqb name f then negb isBlacklist
              else isSupportedField name r isBlacklist
  end.

Definition escapeUnsupportedFieldsInContext (block : curlyBlock) (context : string)
    (fields : list string) (jfText : string) (isBlacklist : bool) : string :=
  let 'mkCurly name nestedBlocks _ _ := block in
  if String.eqb name context then
    fold_left (fun jf nested =>
                 let 'mkCurly nName _ orig repl := nested in
                 if negb (isSupportedField nName fields isBlacklist)
                 then ReplaceAll jf orig repl else jf)
              nestedBlocks jfText
  else jfText.

(** The five calls made for each block [b] of the [GetBlocks] loop. *)
Definition escapeBlockFields (jf : string) (b : curlyBlock) : string :=
  let jf := escapeUnsupportedFieldsInContext b "steps" supportedSteps jf false in
  let jf := escapeUnsupportedFieldsInContext b "when" supportedWhenFields jf false in
  let jf := escapeUnsupportedFieldsInContext b "agent" unsupportedAgentFields jf true in
  let jf := escapeUnsupportedFieldsInContext b "stage" unsupportedStageFields jf true in
  escapeUnsupportedFieldsInContext b "pipeline" unsupportedTopLevelFields jf true.

(** The text [ParseJenkinsfile] hands to the participle parser, from the file
    contents [jf] (Go's [\\$] and [\\\\$] are the strings [\$] and [\\$]). *)
Definition ParseJenkinsfile_text (jf : string) : res string :=
  let replacedJF := ReplaceAll jf "\$" "\\$" in
  let replacedJF := ReplaceAll replacedJF ".toLowerCase()" "" in
  res_bind (GetBlocks replacedJF) (fun curlyBlocks =>
    Ok (escapeSingleQuotedOrMultilineStrings (fold_left escapeBlockFields curlyBlocks replacedJF))).

(** ** Concrete inputs

    [marshal_plain] stands in for [sigs.k8s.io/yaml.Marshal] on plain scalar
    values ([- KEY: value] per map); [iter_insertion] visits the dedup map in
    insertion order.  The inputs are models as the parser builds them. *)
Module Fixtures.

Definition marshal_plain (ms : list (list (string * string))) : res string :=
  Ok (String.concat "" (map (fun m => String.concat ""
        (map (fun kv => "- " ++ fst kv ++ ": " ++ snd kv ++ nl) m)) ms)).

Definition iter_insertion (l : list ModelEnvironmentEntry) := l.

Definition entry0 : ModelStageEntry :=
  {| se_Agent := None; se_Environment := []; se_Steps := []; se_Post := [];
     se_When := None; se_Unsupported := [] |}.

Definition stepsE (l : list ModelStep) : ModelStageEntry :=
  {| se_Agent := None; se_Environment := []; se_Steps := l; se_Post := [];
     se_When := None; se_Unsupported := [] |}.

Definition whenE (w : ModelWhen) : ModelStageEntry :=
  {| se_Agent := None; se_Environment := []; se_Steps := []; se_Post := [];
     se_When := Some w; se_Unsupported := [] |}.

Definition postE (l : list ModelPostEntry) : ModelStageEntry :=
  {| se_Agent := None; se_Environment := []; se_Steps := []; se_Post := l;
     se_When := None; se_Unsupported := [] |}.

Definition branch (b : string) : ModelWhen := {| Branch := b; when_Unsupported := [] |}.

Definition sh (cmd : string) : ModelStep := mkStep "sh" [Unnamed (VString cmd)] [].

(** [customStep(foo: 1)]: the [int64] 1 lives in a heap cell at a typical
    Go heap address. *)
Definition customStep : ModelStep :=
  mkStep "customStep" [Named "foo" (VInt 824633802904 1)] [].

Definition cleanWsPost : ModelPostEntry :=
  {| Kind := "always"; post_Steps := [mkStep "cleanWs" [] []] |}.

Definition pipelineOf (env : list ModelEnvironmentEntry) (stages : list ptr) : Model :=
  {| Pipeline :=
       [ {| pe_Agent := Some {| Label := "" |}; pe_Environment := []; pe_Stages := [];
            pe_Post := []; pe_Unsupported := [] |};
         {| pe_Agent := None; pe_Environment := env; pe_Stages := [];
            pe_Post := []; pe_Unsupported := [] |};
         {| pe_Agent := None; pe_Environment := []; pe_Stages := stages;
            pe_Post := []; pe_Unsupported := [] |} ] |}.

Definition render (m : Model) (h : heap) := ToYaml marshal_plain iter_insertion m h.

Definition out_of (r : res (string * bool) * heap) : string :=
  match fst r with Ok (o, _) => o | _ => "" end.

Definition flag_of (r : res (string * bool) * heap) : option bool :=
  match fst r with Ok (_, f) => Some f | _ => None end.

(** C1: a [master]-guarded stage holding [customStep(foo: 1)]. *)
Definition releaseStage : ModelStage :=
  {| stage_Name := "Release"; Entries := [whenE (branch "master"); stepsE [customStep]] |}.

(** C2: [when { expression { ... } }] is escaped to an unsupported block. *)
Definition exprWhenStage : ModelStage :=
  {| stage_Name := "Deploy";
     Entries := [whenE {| Branch := "";
                          when_Unsupported := [ {| ub_Name := "expression";
                                                   ub_Value := "^^NEWLINE^^return true^^NEWLINE^^" |} ] |};
                 stepsE [sh "make deploy"]] |}.
Definition buildStage : ModelStage :=
  {| stage_Name := "Build"; Entries := [stepsE [sh "make"]] |}.

(** C3: stages with no [when], [branch 'master'] and [branch 'PR-123']. *)
Definition prStage : ModelStage :=
  {| stage_Name := "PRCheck"; Entries := [whenE (branch "PR-123"); stepsE [sh "make check"]] |}.
Definition masterStage : ModelStage :=
  {| stage_Name := "Release"; Entries := [whenE (branch "master"); stepsE [sh "make release"]] |}.

(** C4: [TOKEN = credentials('my-token')]. *)
Definition credEntry : ModelEnvironmentEntry :=
  {| env_Key := "TOKEN"; env_Value := {| StringValue := None; Credential := Some "my-token" |} |}.

(** C5: a pipeline block whose closing brace is missing. *)
Definition unterminatedText : string := "pipeline {" ++ nl ++ "  agent any" ++ nl.

(** C6: a stage whose name holds a space and which has a post block. *)
Definition spacedStage : ModelStage :=
  {| stage_Name := "Build it"; Entries := [stepsE [sh "make"]; postE [cleanWsPost]] |}.

(** C7: [sh 'echo "hi"<newline>done'] and the body of its escaped token. *)
Definition quotedSource : string := "sh 'echo " ++ dq ++ "hi" ++ dq ++ nl ++ "done'".
Definition quotedBody : string := "echo ^^DOUBLEQUOTE^^hi^^DOUBLEQUOTE^^^^NEWLINE^^done".
Definition quotedStage : ModelStage :=
  {| stage_Name := "Q"; Entries := [stepsE [mkStep "sh" [Unnamed (VString quotedBody)] []]] |}.

(** C10: a stage guarded by [branch 'develop'] with a post block. *)
Definition developStage : ModelStage :=
  {| stage_Name := "Dev";
     Entries := [whenE (branch "develop"); stepsE [sh "make dev"]; postE [cleanWsPost]] |}.

(** C1: an unguarded stage holding [customStep(foo: 1)]. *)
Definition customStage : ModelStage :=
  {| stage_Name := "Custom"; Entries := [stepsE [customStep]] |}.

(** C4: [APP_NAME = credentials('app')]; the key is one of [unusedEnvVars]. *)
Definition appNameCred : ModelEnvironmentEntry :=
  {| env_Key := "APP_NAME"; env_Value := {| StringValue := None; Credential := Some "app" |} |}.

(** C9: [container(label: 'x', ttyEnabled: true) { sh 'make' }]. *)
Definition containerStage : ModelStage :=
  {| stage_Name := "Box";
     Entries := [stepsE [mkStep "container" [Named "label" (VString "x"); Named "ttyEnabled" (VBool true)]
                                [sh "make"]]] |}.

(** C10: a stage guarded by [branch 'develop'] with no other directive. *)
Definition quietStage : ModelStage :=
  {| stage_Name := "Dev"; Entries := [whenE (branch "develop"); stepsE [sh "make dev"]] |}.

(** A stage with no [when] whose only step, [sh 'checkout scm'], is one of
    [stepsToRemove]. *)
Definition setupStage : ModelStage :=
  {| stage_Name := "Setup"; Entries := [stepsE [sh "checkout scm"]] |}.

End Fixtures.

Definition same_entries (h0 h : heap) : Prop :=
  forall i, option_map Entries (nth_error h0 i) = option_map Entries (nth_error h i).

(** ** Predicates used in the statements *)

(** A flattened step that [toImageAndSteps] cannot translate: not [sh] or
    [echo], or not exactly one unnamed argument. *)
Definition invalid_step (st : ModelStep) : bool :=
  negb ((String.eqb (step_name st) "sh" || String.eqb (step_name st) "echo")
        && match step_args st with [Unnamed _] => true | _ => false end).

(** The reason passed to [linesForInvalidStep] for such a step. *)
Definition invalid_reason (st : ModelStep) : string :=
  if String.eqb (step_name st) "sh" || String.eqb (step_name st) "echo"
  then match step_args st with [Named _ _] => reasonNamed | _ => reasonAdditional end
  else "".

(** Eligibility for the pull-request and the release job groups. *)
Definition pr_eligible (w : option ModelWhen) : bool :=
  match w with
  | None => true
  | Some w => if String.eqb (Branch w) "master" then false else HasPrefix (Branch w) "PR-"
  end.

Definition release_eligible (w : option ModelWhen) : bool :=
  match w with
  | None => true
  | Some w => String.eqb (Branch w) "master"
  end.

Definition stage_pr_eligible (h : heap) (p : ptr) : bool :=
  match nth_error h p with Some s => pr_eligible (Stage_getWhen s) | None => false end.

Definition stage_release_eligible (h : heap) (p : ptr) : bool :=
  match nth_error h p with Some s => release_eligible (Stage_getWhen s) | None => false end.

(** [r] is the list of the first entry of [l] whose [f] is non-empty, or
    empty when there is none: one entry's list, not a merge. *)
Definition first_populated {E A} (f : E -> list A) (l : list E) (r : list A) : Prop :=
  (r = [] /\ forall e, In e l -> f e = [])
  \/ (exists pre e post, l = (pre ++ e :: post)%list /\ (forall e', In e' pre -> f e' = [])
                         /\ f e = r /\ r <> []).

(** [x] occurs in [s]. *)
Definition IsSubstring (x s : string) : Prop := exists a b, s = a ++ x ++ b.

(** An argument other than a named [name:] argument. *)
Definition no_name_key (a : ModelStepArg) : bool :=
  match a with Named k _ => negb (String.eqb k "name") | Unnamed _ => true end.

(** No stage cell has a space in its name. *)
Definition no_space_names (h : heap) : bool :=
  forallb (fun s => negb (Contains (stage_Name s) " ")) h.

(** The stage's first top-level step is not a [container] step, or is one
    with neither exactly one argument nor a named [name:] argument. *)
Definition default_image_case (s : ModelStage) : bool :=
  match Stage_getSteps s with
  | [] => true
  | s0 :: _ => negb (String.eqb (step_name s0) "container")
               || (negb (Nat.eqb (length (step_args s0)) 1) && forallb no_name_key (step_args s0))
  end.

(** The leaves of a step tree (the steps without nested steps), left to right. *)
Fixpoint step_leaves (m : ModelStep) : list ModelStep :=
  match m with
  | mkStep _ _ [] => [m]
  | mkStep _ _ nested => flat_map step_leaves nested
  end.

(** No step of the tree that has nested steps is named [dir] or [container]. *)
Fixpoint no_dir_container (m : ModelStep) : bool :=
  match m with
  | mkStep _ _ [] => true
  | mkStep name _ nested =>
      negb (String.eqb name "dir") && negb (String.eqb name "container")
      && forallb no_dir_container nested
  end.

(** [s] begins or ends with a double quote. *)
Definition edge_quoted (s : string) : bool := HasPrefix s dq || HasPrefix (rev_string s) dq.

(** No line of [t] begins with a [\s] character. *)
Definition no_indent (t : string) : bool :=
  forallb (fun l => match l with
                    | String c _ => negb (is_re_space c)
                    | EmptyString => true
                    end) (SplitLines t).

(** The comment [toEnvYamlLines] writes for an entry that cannot be converted. *)
Definition invalidVarComment (e : ModelEnvironmentEntry) : string :=
  "# The variable '" ++ env_Key e ++ "' has the value '"
  ++ ModelEnvironmentEntryValue_ToString (env_Value e) ++ "', which cannot be converted.".

(** [ToEnv] yields no variable for [e]: its key is unused, or its string
    value holds a [$]. *)
Definition converts_to_nothing (e : ModelEnvironmentEntry) : bool :=
  mem_string (env_Key e) unusedEnvVars
  || match StringValue (env_Value e) with Some v => Contains v "$" | None => false end.

(** Some key of [l] equals [k]. *)
Definition key_in (k : string) (l : list ModelEnvironmentEntry) : Prop :=
  exists e, In e l /\ env_Key e = k.

(** An entry [toEnvYamlLines] reports as not convertible: its key is used
    and its string value holds a [$]. *)
Definition unconvertible (e : ModelEnvironmentEntry) : bool :=
  negb (mem_string (env_Key e) unusedEnvVars)
  && match StringValue (env_Value e) with Some v => Contains v "$" | None => false end.

(** The name of the stage at [q], or the empty string when [q] is out of the heap. *)
Definition nameAt (h : heap) (q : ptr) : string :=
  match nth_error h q with Some s => stage_Name s | None => "" end.

(** A pointer held by an optional variable, as a list. *)
Definition opt_list (o : option ptr) : list ptr := match o with Some q => [q] | None => [] end.

(** The first four lines [prLoop] writes for the job of the stage at [p] when
    it follows other stages, whose names make up its [needs] list. *)
Definition jobHead (h : heap) (p : ptr) (l : list ptr) : list string :=
  [indentLine (nameAt h p ++ ":") 1;
   indentLine "runs-on: ubuntu-latest" 2;
   indentLine "if: ${{ always() }}" 2;
   indentLine ("needs: [" ++ Join (map (nameAt h) l) ", " ++ "]") 2].

(** * Properties *)

(** ** String lemmas *)
Module StringFacts.

Lemma append_assoc : forall x y z : string, x ++ y ++ z = (x ++ y) ++ z.
Proof. induction x as [|c x IH]; intros; simpl; [reflexivity | rewrite IH; reflexivity]. Qed.

Lemma append_empty_r : forall x : string, x ++ "" = x.
Proof. induction x as [|c x IH]; simpl; [reflexivity | rewrite IH; reflexivity]. Qed.


Lemma prefix_app : forall x y, String.prefix x (x ++ y) = true.
Proof.
  induction x as [|c x IH]; intros y; simpl.
  - destruct y; reflexivity.
  - destruct (ascii_dec c c) as [_|n]; [apply IH | contradiction].
Qed.

Lemma Contains_cons : forall c t x,
    Contains (String c t) x = (if String.prefix x (String c t) then true else Contains t x).
Proof. reflexivity. Qed.

Lemma Contains_complete : forall x s, IsSubstring x s -> Contains s x = true.
Proof.
  intros x s [a [b ->]]. revert b.
  induction a as [|c a IH]; intros b.
  - simpl. destruct (x ++ b) eqn:E.
    + destruct x; [reflexivity | discriminate].
    + rewrite Contains_cons, <- E, prefix_app. reflexivity.
  - simpl append. rewrite Contains_cons.
    destruct (String.prefix x (String c (a ++ x ++ b))); [reflexivity|]. apply IH.
Qed.

Lemma IsSubstring_trans : forall x y z, IsSubstring x y -> IsSubstring y z -> IsSubstring x z.
Proof.
  intros x y z [a [b ->]] [c [d ->]].
  exists (c ++ a), (b ++ d). rewrite <- !append_assoc. reflexivity.
Qed.

Lemma Join_In : forall l sep x, In x l -> IsSubstring x (Join l sep).
Proof.
  unfold Join. induction l as [|y l IH]; intros sep x Hin; [destruct Hin|].
  destruct Hin as [<- | Hin].
  - destruct l; simpl.
    + exists "", "". simpl. rewrite append_empty_r. reflexivity.
    + exists "", (sep ++ String.concat sep (s :: l)). reflexivity.
  - destruct l as [|z l]; [destruct Hin|].
    destruct (IH sep x Hin) as [a [b Hab]].
    exists (y ++ sep ++ a), b. simpl. simpl in Hab. rewrite Hab.
    rewrite <- !append_assoc. reflexivity.
Qed.

(** [ReplaceAll] without an occurrence is the identity. *)
Lemma replace_from_absent : forall old new s,
    Contains s old = false -> replace_from old new 0 s = s.
Proof.
  induction s as [|c s IH]; intros H; [reflexivity|].
  rewrite Contains_cons in H.
  change (replace_from old new 0 (String c s))
    with (if String.prefix old (String c s)
          then new ++ replace_from old new (String.length old - 1) s
          else String c (replace_from old new 0 s)).
  destruct (String.prefix old (String c s)); [discriminate|].
  rewrite IH; auto.
Qed.

Lemma ReplaceAll_absent : forall s old new,
    old <> "" -> Contains s old = false -> ReplaceAll s old new = s.
Proof.
  intros s old new Hne H. unfold ReplaceAll.
  destruct old; [contradiction|]. apply replace_from_absent. exact H.
Qed.

(** Trimming at the right end. *)
Lemma rev_string_app : forall x y, rev_string (x ++ y) = rev_string y ++ rev_string x.
Proof.
  induction x as [|c x IH]; intros y; simpl.
  - rewrite append_empty_r. reflexivity.
  - rewrite IH, append_assoc. reflexivity.
Qed.

Lemma rev_string_involutive : forall s, rev_string (rev_string s) = s.
Proof.
  induction s as [|c s IH]; simpl; [reflexivity|].
  rewrite rev_string_app, IH. reflexivity.
Qed.

Lemma TrimLeft_app : forall x y cut,
    (exists x', TrimLeft (x ++ y) cut = x' ++ y /\ TrimLeft x cut = x')
    \/ (TrimLeft x cut = "" /\ TrimLeft (x ++ y) cut = TrimLeft y cut).
Proof.
  induction x as [|c x IH]; intros y cut; simpl.
  - right. split; reflexivity.
  - destruct (in_cutset c cut).
    + apply IH.
    + left. exists (String c x). split; reflexivity.
Qed.

(** If the last character of [p] is not cut, trimming [p ++ q] on the right
    keeps [p] whole. *)
Lemma TrimRight_keeps_prefix : forall p c q cut,
    in_cutset c cut = false ->
    exists q', TrimRight (p ++ String c q) cut = p ++ String c q'.
Proof.
  intros p c q cut Hc. unfold TrimRight.
  rewrite rev_string_app.
  change (rev_string (String c q)) with (rev_string q ++ String c "").
  rewrite <- append_assoc. simpl (String c "" ++ rev_string p).
  destruct (TrimLeft_app (rev_string q) (String c (rev_string p)) cut)
    as [[x' [H1 _]] | [_ H2]].
  - rewrite H1, rev_string_app.
    change (rev_string (String c (rev_string p)))
      with (rev_string (rev_string p) ++ String c "").
    rewrite rev_string_involutive, <- append_assoc.
    exists (rev_string x'). reflexivity.
  - rewrite H2. simpl TrimLeft. rewrite Hc.
    change (rev_string (String c (rev_string p)))
      with (rev_string (rev_string p) ++ String c "").
    rewrite rev_string_involutive. exists "". reflexivity.
Qed.

Lemma TrimSpace_nonblank : forall c r,
    in_cutset c ascii_space = false -> TrimSpace (String c r) <> "".
Proof.
  intros c r Hc. unfold TrimSpace, Trim.
  change (TrimLeft (String c r) ascii_space)
    with (if in_cutset c ascii_space then TrimLeft r ascii_space else String c r).
  rewrite Hc.
  destruct (TrimRight_keeps_prefix "" c r ascii_space Hc) as [q' Hq].
  simpl in Hq. rewrite Hq. discriminate.
Qed.

Lemma indentLine_nonblank : forall c r n,
    in_cutset c ascii_space = false -> indentLine (String c r) n = Repeat indent n ++ String c r.
Proof.
  intros c r n Hc. unfold indentLine.
  destruct (String.eqb_spec (TrimSpace (String c r)) "") as [E|_]; [|reflexivity].
  exfalso. exact (TrimSpace_nonblank c r Hc E).
Qed.

End StringFacts.
Import StringFacts.

(** ** Step rendering *)
Module StepFacts.

Lemma stepLinesFor_invalid : forall image ind x,
    invalid_step (sd_step x) = true ->
    stepLinesFor image ind x
    = (linesForInvalidStep (sd_step x) (invalid_reason (sd_step x)) ind, true).
Proof.
  intros image ind [[n args nested] d i] H.
  unfold invalid_step, invalid_reason, stepLinesFor in *; simpl in *.
  destruct (String.eqb n "sh"), (String.eqb n "echo"); simpl in *;
    destruct args as [|[v|k v] [|b r]]; simpl in *; try discriminate; reflexivity.
Qed.

Lemma linesForInvalidStep_cons : forall st r ind,
    exists l0 ls, linesForInvalidStep st r ind = l0 :: ls.
Proof. intros. unfold linesForInvalidStep. eexists _, _. reflexivity. Qed.

Lemma stepsLines_invalid : forall image ind l x,
    In x l -> invalid_step (sd_step x) = true ->
    In (Join (linesForInvalidStep (sd_step x) (invalid_reason (sd_step x)) ind) nl)
       (fst (stepsLines image ind l))
    /\ snd (stepsLines image ind l) = true.
Proof.
  intros image ind l x. induction l as [|y l IH]; intros Hin Hx; [destruct Hin|].
  cbn [stepsLines]. destruct Hin as [-> | Hin].
  - rewrite stepLinesFor_invalid by exact Hx.
    destruct (linesForInvalidStep_cons (sd_step x) (invalid_reason (sd_step x)) ind)
      as [l0 [ls E]].
    destruct (stepsLines image ind l) as [rest iss'].
    rewrite E. cbn [fst snd app orb]. split; [left; reflexivity | reflexivity].
  - destruct (IH Hin Hx) as [H1 H2].
    destruct (stepLinesFor image ind y) as [single iss].
    destruct (stepsLines image ind l) as [rest iss']. cbn [fst snd] in *.
    subst iss'. rewrite orb_true_r. split; [|reflexivity].
    apply in_or_app. right. exact H1.
Qed.

Lemma stepsLines_issues_mono : forall image ind l,
    snd (stepsLines image ind l) = existsb (fun x => snd (stepLinesFor image ind x)) l.
Proof.
  intros image ind l. induction l as [|y l IH]; [reflexivity|].
  cbn [stepsLines existsb]. destruct (stepLinesFor image ind y) as [single iss].
  destruct (stepsLines image ind l) as [rest iss']. cbn [snd] in *. rewrite IH. reflexivity.
Qed.

(** A [Named] argument prints as [key: ...]; trimming quotes keeps that. *)
Lemma named_arg_trim_prefix : forall k v,
    String.prefix "key: " (Trim (ModelStepArg_ToString (Named k v)) dq) = true.
Proof.
  intros k v.
  set (p := "key: " ++ k ++ ", val").
  assert (Ht : ModelStepArg_ToString (Named k v)
               = p ++ String ":"%char (String " "%char (Value_ToString v))).
  { unfold p. simpl. rewrite <- !append_assoc. reflexivity. }
  rewrite Ht. unfold Trim.
  assert (HL : TrimLeft (p ++ String ":"%char (String " "%char (Value_ToString v))) dq
               = p ++ String ":"%char (String " "%char (Value_ToString v))) by reflexivity.
  rewrite HL.
  destruct (TrimRight_keeps_prefix p ":"%char (String " " (Value_ToString v)) dq eq_refl)
    as [q' Hq].
  rewrite Hq. unfold p. rewrite <- append_assoc. apply prefix_app.
Qed.

(** The removal list only ever drops well-formed [sh] steps. *)
Lemma shouldRemove_valid : forall st, shouldRemove st = true -> invalid_step st = false.
Proof.
  intros [n args nested]. unfold shouldRemove, invalid_step. cbn [step_args step_name].
  destruct args as [|a [|b r]]; try discriminate.
  destruct (String.eqb n "sh") eqn:Hn; [|discriminate]. cbn [andb orb negb].
  destruct a as [v | k v]; [reflexivity|].
  intro H. apply existsb_exists in H. destruct H as [m [Hin Hm]].
  apply String.eqb_eq in Hm.
  pose proof (named_arg_trim_prefix k v) as Hp. rewrite Hm in Hp.
  simpl in Hin. repeat destruct Hin as [<- | Hin]; try discriminate; destruct Hin.
Qed.

Lemma invalid_included : forall l x,
    In x l -> invalid_step (sd_step x) = true ->
    In x (filter (fun s => negb (shouldRemove (sd_step s))) l).
Proof.
  intros l x Hin Hx. apply filter_In. split; [exact Hin|].
  destruct (shouldRemove (sd_step x)) eqn:E; [|reflexivity].
  rewrite (shouldRemove_valid _ E) in Hx. discriminate.
Qed.

(** Every untranslatable flattened step of a stage yields its invalid-step
    block among the stage's step lines, and the stage reports an issue. *)
Lemma stage_invalid_step : forall s ind x,
    In x (stageBaseSteps s (stageDefaultImage s)) -> invalid_step (sd_step x) = true ->
    In (Join (linesForInvalidStep (sd_step x) (invalid_reason (sd_step x)) ind) nl)
       (snd (fst (Stage_toImageAndSteps s ind)))
    /\ snd (Stage_toImageAndSteps s ind) = true.
Proof.
  intros s ind x Hin Hx. unfold Stage_toImageAndSteps.
  pose proof (invalid_included _ x Hin Hx) as Hf.
  pose proof (stepsLines_invalid (stageDefaultImage s) ind _ x Hf Hx) as [H1 H2].
  destruct (stepsLines _ ind _) as [ls iss]. cbn [fst snd] in *. auto.
Qed.

Lemma Stage_toImageAndSteps_entries : forall s1 s2 ind,
    Entries s1 = Entries s2 -> Stage_toImageAndSteps s1 ind = Stage_toImageAndSteps s2 ind.
Proof.
  intros s1 s2 ind E. unfold Stage_toImageAndSteps, stageDefaultImage, stageBaseSteps,
    Stage_getSteps. rewrite E. reflexivity.
Qed.

End StepFacts.
Import StepFacts.

(** ** The heap of stage cells *)
Module HeapFacts.

Lemma nth_error_set_nth : forall A (l : list A) n x i,
    nth_error (set_nth l n x) i
    = if Nat.eqb i n then option_map (fun _ => x) (nth_error l n) else nth_error l i.
Proof.
  intros A l. induction l as [|y l IH]; intros n x i.
  - simpl. destruct (Nat.eqb i n); destruct n, i; reflexivity.
  - destruct n, i; simpl; try reflexivity. apply IH.
Qed.

Lemma set_nth_same : forall A (l : list A) n x, nth_error l n = Some x -> set_nth l n x = l.
Proof.
  intros A l. induction l as [|y l IH]; intros n x H.
  - destruct n; discriminate.
  - destruct n; simpl in *.
    + injection H as ->. reflexivity.
    + rewrite (IH n x H). reflexivity.
Qed.

Lemma same_entries_refl : forall h, same_entries h h.
Proof. intros h i. reflexivity. Qed.

Lemma same_entries_put : forall h0 h p s s',
    same_entries h0 h -> nth_error h p = Some s -> Entries s' = Entries s ->
    same_entries h0 (set_nth h p s').
Proof.
  intros h0 h p s s' Hs Hp He i. rewrite nth_error_set_nth, Hs.
  destruct (Nat.eqb i p) eqn:E; [|reflexivity].
  apply Nat.eqb_eq in E. subst i. rewrite Hp. simpl. rewrite He. reflexivity.
Qed.

Lemma numberedSteps_In : forall k l x, In x l -> In x (numberedSteps k l).
Proof.
  intros k l. revert k. induction l as [|y l IH]; intros k x Hin; [destruct Hin|].
  simpl. destruct Hin as [-> | Hin]; [right; left; reflexivity|].
  right; right. apply IH, Hin.
Qed.

End HeapFacts.
Import HeapFacts.

(** ** The pull-request job loop *)
Module PrFacts.

(** What [prLoop] guarantees about the cells it visits, stated against the
    heap [h0] it started from (renaming keeps each cell's entries). *)
Lemma prLoop_spec : forall h0 stages prev acc hc acc' hc',
    same_entries h0 hc ->
    prLoop prev stages acc hc = (Ok acc', hc') ->
    same_entries h0 hc'
    /\ (exists suf, a_lines acc' = app (a_lines acc) suf)
    /\ (exists suf, a_stepLines acc' = app (a_stepLines acc) suf)
    /\ (a_issues acc = true -> a_issues acc' = true)
    /\ (forall p s0, In p stages -> nth_error h0 p = Some s0 ->
          (forall l, In l (snd (fst (Stage_toImageAndSteps s0 2))) ->
                     In l (a_lines acc') /\ In l (a_stepLines acc'))
          /\ (snd (Stage_toImageAndSteps s0 2) = true -> a_issues acc' = true)).
Proof.
  intros h0 stages. induction stages as [|p rest IH]; intros prev acc hc acc' hc' Hs H.
  - cbn [prLoop st_ret] in H. injection H as <- <-.
    split; [exact Hs|]. split; [exists []; symmetry; apply app_nil_r|].
    split; [exists []; symmetry; apply app_nil_r|]. split; [auto|].
    intros p s0 [].
  - cbn [prLoop] in H. unfold st_bind at 1, st_get at 1, get_stage at 1 in H.
    destruct (nth_error hc p) as [s0c|] eqn:Hp; [|discriminate].
    unfold st_bind at 1, st_put at 1 in H.
    assert (Hs1 : same_entries h0 (set_nth hc p (rename_stage s0c)))
      by (apply (same_entries_put _ _ _ s0c); auto).
    set (hc1 := set_nth hc p (rename_stage s0c)) in *.
    destruct prev as [q|].
    + unfold st_bind, st_get, st_ret, get_stage in H.
      destruct (nth_error hc1 q) as [sq|]; [|discriminate].
      destruct (Stage_toImageAndSteps (rename_stage s0c) 2) as [[img ss] iss] eqn:Ei.
      destruct (IH _ _ _ _ _ Hs1 H) as (Hs' & [suf1 Hl] & [suf2 Hsl] & Hmono & Hrest).
      cbn [a_lines] in Hl; cbn [a_stepLines] in Hsl; cbn [a_issues] in Hmono.
      split; [exact Hs'|].
      split; [eexists; rewrite Hl, <- !app_assoc; reflexivity|].
      split; [eexists; rewrite Hsl, <- app_assoc; reflexivity|].
      split; [intro Ha; apply Hmono; rewrite Ha; reflexivity|].
      intros p' s0 [<- | Hin] H0; [|exact (Hrest p' s0 Hin H0)].
      assert (Ee : Entries s0 = Entries (rename_stage s0c)).
      { specialize (Hs p). rewrite H0, Hp in Hs. injection Hs as Hs. exact Hs. }
      rewrite (Stage_toImageAndSteps_entries _ _ 2 Ee), Ei. cbn [fst snd].
      split.
      * intros l Hl0. rewrite Hl, Hsl. split; apply in_or_app; left; apply in_or_app; right;
          [apply numberedSteps_In; exact Hl0 | exact Hl0].
      * intro Hi. apply Hmono. rewrite Hi, orb_true_r. reflexivity.
    + unfold st_bind, st_ret in H.
      destruct (Stage_toImageAndSteps (rename_stage s0c) 2) as [[img ss] iss] eqn:Ei.
      destruct (IH _ _ _ _ _ Hs1 H) as (Hs' & [suf1 Hl] & [suf2 Hsl] & Hmono & Hrest).
      cbn [a_lines] in Hl; cbn [a_stepLines] in Hsl; cbn [a_issues] in Hmono.
      split; [exact Hs'|].
      split; [eexists; rewrite Hl, <- !app_assoc; reflexivity|].
      split; [eexists; rewrite Hsl, <- app_assoc; reflexivity|].
      split; [intro Ha; apply Hmono; rewrite Ha; reflexivity|].
      intros p' s0 [<- | Hin] H0; [|exact (Hrest p' s0 Hin H0)].
      assert (Ee : Entries s0 = Entries (rename_stage s0c)).
      { specialize (Hs p). rewrite H0, Hp in Hs. injection Hs as Hs. exact Hs. }
      rewrite (Stage_toImageAndSteps_entries _ _ 2 Ee), Ei. cbn [fst snd].
      split.
      * intros l Hl0. rewrite Hl, Hsl. split; apply in_or_app; left; apply in_or_app; right;
          [apply numberedSteps_In; exact Hl0 | exact Hl0].
      * intro Hi. apply Hmono. rewrite Hi, orb_true_r. reflexivity.
Qed.

End PrFacts.

(** ** The stage partition loop of [ToYaml] *)
Module StageLoopFacts.

Lemma stage_release_eligible_at : forall h p s,
    nth_error h p = Some s -> stage_release_eligible h p = release_eligible (Stage_getWhen s).
Proof. intros h p s H. unfold stage_release_eligible. rewrite H. reflexivity. Qed.

Lemma stage_pr_eligible_at : forall h p s,
    nth_error h p = Some s -> stage_pr_eligible h p = pr_eligible (Stage_getWhen s).
Proof. intros h p s H. unfold stage_pr_eligible. rewrite H. reflexivity. Qed.

(** [stageLoop] leaves the heap alone, appends the eligible stages in
    order, and never clears the flag. *)
Lemma stageLoop_spec : forall stages rel pr lines iss h rel' pr' lines' iss' h',
    stageLoop stages rel pr lines iss h = (Ok (rel', pr', lines', iss'), h') ->
    h' = h
    /\ rel' = app rel (filter (stage_release_eligible h) stages)
    /\ pr' = app pr (filter (stage_pr_eligible h) stages)
    /\ (exists suf, lines' = app lines suf)
    /\ (iss = true -> iss' = true).
Proof.
  intros stages. induction stages as [|p rest IH];
    intros rel pr lines iss h rel' pr' lines' iss' h' H.
  - cbn [stageLoop st_ret] in H. injection H as <- <- <- <- <-.
    rewrite !app_nil_r. repeat split; auto. exists []. symmetry. apply app_nil_r.
  - cbn [stageLoop] in H. unfold st_bind at 1, st_get at 1, get_stage at 1 in H.
    destruct (nth_error h p) as [s|] eqn:Hp; [|discriminate].
    cbn [filter]. rewrite (stage_release_eligible_at _ _ _ Hp), (stage_pr_eligible_at _ _ _ Hp).
    unfold release_eligible, pr_eligible.
    destruct (Stage_getWhen s) as [w|] eqn:Hw;
      [destruct (String.eqb (Branch w) "master") eqn:Hm;
       [|destruct (HasPrefix (Branch w) "PR-") eqn:Hpr;
         [|destruct (when_Unsupported w) eqn:Hu]]|];
      destruct (Stage_getPost s); destruct (Stage_getUnsupported s);
      cbv beta iota zeta in H;
      destruct (IH _ _ _ _ _ _ _ _ _ _ H) as (-> & -> & -> & [suf Hl] & Hi);
      (split; [reflexivity|]);
      (split; [rewrite <- ?app_assoc; reflexivity|]);
      (split; [rewrite <- ?app_assoc; reflexivity|]);
      (split; [eexists; rewrite Hl, <- ?app_assoc; reflexivity|]);
      intro Hx; apply Hi; first [reflexivity | exact Hx].
Qed.

End StageLoopFacts.

(** ** [prOrReleasePipelineAsYAML] and [ToYaml] *)
Module RenderFacts.
Import StageLoopFacts PrFacts.

(** The job text holds every step line of every stage it was given, and
    the job's flag covers every stage's flag. *)
Lemma prOrRelease_contains : forall marshal iter stages isRel h out flag h' p s0,
    prOrReleasePipelineAsYAML marshal iter stages isRel h = (Ok (out, flag), h') ->
    In p stages -> nth_error h p = Some s0 ->
    (forall l, In l (snd (fst (Stage_toImageAndSteps s0 2))) -> IsSubstring l out)
    /\ (snd (Stage_toImageAndSteps s0 2) = true -> flag = true).
Proof.
  intros marshal iter stages isRel h out flag h' p s0 H Hin Hp.
  unfold prOrReleasePipelineAsYAML in H. unfold st_bind at 1 in H.
  destruct (prLoop None stages _ h) as [[acc| |] h1] eqn:Hl; try discriminate.
  destruct (prLoop_spec h _ _ _ _ _ _ (same_entries_refl h) Hl)
    as (_ & _ & _ & _ & Hall).
  destruct (Hall p s0 Hin Hp) as [Hlines Hiss]. clear Hall Hl.
  unfold st_bind, st_lift, st_ret in H.
  destruct (toEnvYamlLines marshal (iter (a_env acc))) as [envY| |]; try discriminate.
  assert (Hpre : forall envY', exists suf,
             match envY' with
             | [] => a_lines acc
             | _ => if containsRealEnvLines envY'
                    then app (a_lines acc) (indentLine "environment:" 3 :: map (fun l => indentLine l 4) envY')
                    else app (a_lines acc) (map (fun l => indentLine l 3) envY')
             end = app (a_lines acc) suf).
  { intros [|e es]; [exists []; symmetry; apply app_nil_r|].
    destruct (containsRealEnvLines (e :: es)); eexists; reflexivity. }
  destruct (Hpre envY) as [suf Hsuf]. clear Hpre.
  cbv zeta in H. rewrite Hsuf in H.
  destruct (a_stepLines acc) as [|l0 ls] eqn:Hsl.
  - injection H as <- <- _. split.
    + intros l Hl0. destruct (Hlines l Hl0) as [_ []].
    + reflexivity.
  - injection H as <- <- _. split.
    + intros l Hl0. apply Join_In. apply in_or_app. left.
      exact (proj1 (Hlines l Hl0)).
    + exact Hiss.
Qed.

(** [ToYaml] is its header and warning lines followed by one job, built by
    [prOrReleasePipelineAsYAML] from the pull-request-eligible stages. *)
Lemma ToYaml_decomp : forall marshal iter m h out flag h',
    ToYaml marshal iter m h = (Ok (out, flag), h') ->
    exists header hflag prOut prFlag,
      prOrReleasePipelineAsYAML marshal iter
        (filter (stage_pr_eligible h) (Model_getStages m)) false h = (Ok (prOut, prFlag), h')
      /\ out = Join (app header [prOut]) nl
      /\ flag = hflag || prFlag.
Proof.
  intros marshal iter m h out flag h' H.
  unfold ToYaml in H. unfold st_bind at 1, st_lift at 1 in H.
  destruct (toEnvYamlLines marshal (Model_getEnvironment m)) as [envLines| |];
    try discriminate.
  destruct (pipelinePostLines m) as [postLines postIssues].
  cbv beta iota zeta in H. unfold st_bind at 1 in H.
  destruct (stageLoop (Model_getStages m) [] [] _ _ h)
    as [[[[[rel pr] lines] iss]| |] h1] eqn:Hs; try discriminate.
  destruct (stageLoop_spec _ _ _ _ _ _ _ _ _ _ _ Hs) as (-> & _ & Hpr & _ & _).
  cbn [app] in Hpr. subst pr.
  unfold st_bind, st_ret in H.
  destruct (prOrReleasePipelineAsYAML marshal iter _ false h)
    as [[[prOut prFlag]| |] h2] eqn:Hp; try discriminate.
  injection H as <- <- <-.
  exists lines, iss, prOut, prFlag. auto.
Qed.

(** Renaming a stage whose name holds no space changes nothing. *)
Lemma rename_stage_id : forall s,
    Contains (stage_Name s) " " = false -> rename_stage s = s.
Proof.
  intros [n e] H. unfold rename_stage. cbn [stage_Name Entries] in *.
  rewrite ReplaceAll_absent by (discriminate || exact H). reflexivity.
Qed.

Lemma no_space_names_In : forall h s,
    no_space_names h = true -> In s h -> Contains (stage_Name s) " " = false.
Proof.
  intros h s H Hin. unfold no_space_names in H. rewrite forallb_forall in H.
  apply negb_true_iff, H, Hin.
Qed.

Lemma prLoop_heap : forall stages prev acc h,
    no_space_names h = true -> snd (prLoop prev stages acc h) = h.
Proof.
  intros stages. induction stages as [|p rest IH]; intros prev acc h Hn; [reflexivity|].
  cbn [prLoop]. unfold st_bind at 1, st_get at 1, get_stage at 1.
  destruct (nth_error h p) as [s0|] eqn:Hp; [|reflexivity].
  rewrite (rename_stage_id s0 (no_space_names_In h s0 Hn (nth_error_In _ _ Hp))).
  unfold st_bind at 1, st_put at 1. rewrite (set_nth_same _ _ _ _ Hp).
  destruct prev as [q|].
  - unfold st_bind, st_get, st_ret, get_stage.
    destruct (nth_error h q) as [sq|]; [|reflexivity].
    destruct (Stage_toImageAndSteps s0 2) as [[img ss] iss]. apply IH, Hn.
  - unfold st_bind, st_ret.
    destruct (Stage_toImageAndSteps s0 2) as [[img ss] iss]. apply IH, Hn.
Qed.

Lemma stageLoop_heap : forall stages rel pr lines iss h,
    snd (stageLoop stages rel pr lines iss h) = h.
Proof.
  intros stages. induction stages as [|p rest IH]; intros rel pr lines iss h; [reflexivity|].
  cbn [stageLoop]. unfold st_bind at 1, st_get at 1, get_stage at 1.
  destruct (nth_error h p) as [s|]; [|reflexivity].
  destruct (Stage_getWhen s) as [w|];
    [destruct (String.eqb (Branch w) "master");
     [|destruct (HasPrefix (Branch w) "PR-"); [|destruct (when_Unsupported w)]]|];
    destruct (Stage_getPost s); destruct (Stage_getUnsupported s);
    cbv beta iota zeta; apply IH.
Qed.

Lemma prOrRelease_heap : forall marshal iter stages isRel h,
    no_space_names h = true -> snd (prOrReleasePipelineAsYAML marshal iter stages isRel h) = h.
Proof.
  intros marshal iter stages isRel h Hn. unfold prOrReleasePipelineAsYAML.
  unfold st_bind at 1.
  pose proof (prLoop_heap stages None
    {| a_lines := []; a_needs := []; a_env := []; a_stepLines := []; a_issues := false |} h Hn)
    as E.
  destruct (prLoop None stages _ h) as [[acc| |] h1]; cbn [snd] in *; subst h1; try reflexivity.
  unfold st_bind, st_lift, st_ret.
  destruct (toEnvYamlLines marshal (iter (a_env acc))); try reflexivity.
  destruct (a_stepLines acc); reflexivity.
Qed.

Lemma ToYaml_heap : forall marshal iter m h,
    no_space_names h = true -> snd (ToYaml marshal iter m h) = h.
Proof.
  intros marshal iter m h Hn. unfold ToYaml. unfold st_bind at 1, st_lift at 1.
  destruct (toEnvYamlLines marshal (Model_getEnvironment m)) as [envLines| |];
    try reflexivity.
  destruct (pipelinePostLines m) as [postLines postIssues].
  cbv beta iota zeta. unfold st_bind at 1.
  pose proof (stageLoop_heap (Model_getStages m) [] []
    (app (headerLines envLines) (app postLines (pipelineUnsupportedLines m)))
    (postIssues || negb match Model_getUnsupported m with [] => true | _ => false end) h) as E.
  destruct (stageLoop (Model_getStages m) [] [] _ _ h)
    as [[[[[rel pr] lines] iss]| |] h1]; cbn [snd] in E; subst h1; try reflexivity.
  unfold st_bind, st_ret.
  pose proof (prOrRelease_heap marshal iter pr false h Hn) as E.
  destruct (prOrReleasePipelineAsYAML marshal iter pr false h) as [[[o f]| |] h2];
    cbn [snd] in *; exact E.
Qed.

(** A stage in no job group and with no directive to report is skipped by
    [stageLoop] without a trace. *)
Lemma stageLoop_skip : forall p rest rel pr lines iss h s w,
    nth_error h p = Some s -> Stage_getWhen s = Some w ->
    String.eqb (Branch w) "master" = false -> HasPrefix (Branch w) "PR-" = false ->
    when_Unsupported w = [] -> Stage_getPost s = [] -> Stage_getUnsupported s = [] ->
    stageLoop (p :: rest) rel pr lines iss h = stageLoop rest rel pr lines iss h.
Proof.
  intros p rest rel pr lines iss h s w Hp Hw Hm Hpr Hu Hpo Hun.
  cbn [stageLoop]. unfold st_bind at 1, st_get at 1, get_stage at 1.
  rewrite Hp. cbv beta iota zeta. rewrite Hw, Hm, Hpr, Hu, Hpo, Hun. reflexivity.
Qed.

Lemma stageLoop_app_skip : forall pre p post rel pr lines iss h s w,
    nth_error h p = Some s -> Stage_getWhen s = Some w ->
    String.eqb (Branch w) "master" = false -> HasPrefix (Branch w) "PR-" = false ->
    when_Unsupported w = [] -> Stage_getPost s = [] -> Stage_getUnsupported s = [] ->
    stageLoop (app pre (p :: post)) rel pr lines iss h = stageLoop (app pre post) rel pr lines iss h.
Proof.
  intros pre. induction pre as [|q pre IH];
    intros p post rel pr lines iss h s w Hp Hw Hm Hpr Hu Hpo Hun.
  - exact (stageLoop_skip p post rel pr lines iss h s w Hp Hw Hm Hpr Hu Hpo Hun).
  - cbn [app stageLoop]. unfold st_bind, st_get, get_stage.
    destruct (nth_error h q) as [s0|]; [|reflexivity].
    destruct (Stage_getWhen s0) as [w0|];
      [destruct (String.eqb (Branch w0) "master");
       [|destruct (HasPrefix (Branch w0) "PR-"); [|destruct (when_Unsupported w0)]]|];
      destruct (Stage_getPost s0); destruct (Stage_getUnsupported s0);
      cbv beta iota zeta; eapply IH; eauto.
Qed.

(** [ToEnv] never returns an [Err]; it panics only on a nil string value. *)
Lemma ToEnv_cases : forall e,
    (exists r, ToEnv e = Ok r) \/ ToEnv e = Panic nil_deref.
Proof.
  intros e. unfold ToEnv.
  destruct (mem_string (env_Key e) unusedEnvVars); [left; eexists; reflexivity|].
  destruct (StringValue (env_Value e)) as [v|]; [|right; reflexivity].
  left. destruct (Contains v "$"); eexists; reflexivity.
Qed.

Lemma envLoop_panic : forall l inv env e,
    In e l -> ToEnv e = Panic nil_deref -> envLoop l inv env = Panic nil_deref.
Proof.
  intros l. induction l as [|e0 l IH]; intros inv env e Hin He; [destruct Hin|].
  cbn [envLoop]. destruct Hin as [-> | Hin].
  - rewrite He. reflexivity.
  - destruct (ToEnv_cases e0) as [[[conv isInv] E]|E]; rewrite E; [|reflexivity].
    cbn [res_bind]. destruct isInv; eapply IH; eauto.
Qed.

Lemma first_nonempty_spec : forall E A (f : E -> list A) l,
    first_populated f l (first_nonempty f l).
Proof.
  intros E A f l. induction l as [|e l IH].
  - left. split; [reflexivity|]. intros e [].
  - cbn [first_nonempty]. destruct (f e) as [|a r] eqn:Hf.
    + destruct IH as [[H1 H2] | (pre & e' & post & H1 & H2 & H3 & H4)].
      * left. split; [exact H1|]. intros e' [<- | Hin]; auto.
      * right. exists (e :: pre), e', post. split; [rewrite H1; reflexivity|].
        split; [intros e'' [<- | Hin]; auto|]. repeat split; auto.
    + right. exists [], e, l. split; [reflexivity|]. split; [intros e' []|].
      split; [exact Hf|discriminate].
Qed.

Lemma Stage_getWhen_aux_spec : forall l,
    (Stage_getWhen_aux l = None /\ forall e, In e l -> se_When e = None)
    \/ (exists pre e post w, l = app pre (e :: post)
        /\ (forall e', In e' pre -> se_When e' = None)
        /\ se_When e = Some w /\ Stage_getWhen_aux l = Some w).
Proof.
  intros l. induction l as [|e l IH].
  - left. split; [reflexivity|]. intros e [].
  - cbn [Stage_getWhen_aux]. destruct (se_When e) as [w|] eqn:Hw.
    + right. exists [], e, l, w. split; [reflexivity|].
      split; [intros e' []|]. repeat split; auto.
    + destruct IH as [[H1 H2] | (pre & e' & post & w & H1 & H2 & H3 & H4)].
      * left. split; [exact H1|]. intros e' [<- | Hin]; auto.
      * right. exists (e :: pre), e', post, w. split; [rewrite H1; reflexivity|].
        split; [intros e'' [<- | Hin]; auto|]. repeat split; auto.
Qed.

Lemma named_name_arg_none : forall l,
    forallb no_name_key l = true -> named_name_arg l = None.
Proof.
  intros l. induction l as [|a l IH]; intros H; [reflexivity|].
  cbn [forallb] in H. apply andb_true_iff in H as [Ha Hl].
  destruct a as [v|k v]; cbn [named_name_arg]; [exact (IH Hl)|].
  cbn [no_name_key] in Ha. destruct (String.eqb k "name"); [discriminate|exact (IH Hl)].
Qed.

Lemma default_image_maven : forall s,
    default_image_case s = true -> stageDefaultImage s = "maven".
Proof.
  intros s H. unfold default_image_case, stageDefaultImage in *.
  destruct (Stage_getSteps s) as [|s0 r]; [reflexivity|].
  destruct (String.eqb (step_name s0) "container"); [|reflexivity].
  cbn [negb orb] in H. apply andb_true_iff in H as [Hl Hf].
  unfold imageFromContainerStep.
  destruct (step_args s0) as [|a [|b r']]; [reflexivity|discriminate|].
  rewrite (named_name_arg_none _ Hf). reflexivity.
Qed.

(** [toMultilineQuote] leaves a string without a multi-line placeholder as
    one line. *)
Lemma toMultilineQuote_plain : forall x,
    Contains x multilineSingleQuotePlaceholder = false ->
    Contains x multilineDoubleQuotePlaceholder = false ->
    toMultilineQuote x = [x].
Proof.
  intros x H1 H2. unfold toMultilineQuote. rewrite H1, H2. reflexivity.
Qed.

End RenderFacts.
Import RenderFacts.

(** ** Arguments, the stage loop's warnings *)
Module ArgFacts.
Import StageLoopFacts.

Lemma Trim_dq_quoted : forall s, edge_quoted s = false -> Trim (dq ++ s ++ dq) dq = s.
Proof.
  intros s H. unfold edge_quoted in H. apply orb_false_iff in H as [H1 H2].
  unfold Trim. change (dq ++ s ++ dq) with (String "034"%char (s ++ dq)).
  cbn [TrimLeft in_cutset dq]. rewrite Ascii.eqb_refl. cbn [orb].
  destruct s as [|c r].
  - reflexivity.
  - unfold HasPrefix in H1. cbn [String.prefix dq] in H1.
    destruct (Ascii.ascii_dec "034"%char c) as [Hc|Hc]; [destruct r; discriminate|].
    cbn [append TrimLeft in_cutset].
    assert (Ec : Ascii.eqb c "034"%char = false) by (apply Ascii.eqb_neq; intros ->; apply Hc; reflexivity).
    replace (in_cutset c dq) with false by (cbn; rewrite Ec; reflexivity).
    unfold TrimRight. change (String c (r ++ dq)) with (String c r ++ dq).
    rewrite rev_string_app. change (rev_string dq) with (String "034"%char "").
    assert (Hq : forall x, TrimLeft (String "034"%char x) dq = TrimLeft x dq) by reflexivity.
    cbn [append]. rewrite Hq.
    destruct (rev_string (String c r)) as [|c' r'] eqn:Er.
    + exfalso. apply (f_equal rev_string) in Er. rewrite rev_string_involutive in Er. discriminate.
    + unfold HasPrefix in H2. cbn [String.prefix dq] in H2.
      destruct (Ascii.ascii_dec "034"%char c') as [Hc'|Hc']; [destruct r'; discriminate|].
      assert (Ec' : Ascii.eqb c' "034"%char = false) by (apply Ascii.eqb_neq; intros ->; apply Hc'; reflexivity).
      cbn [TrimLeft]. replace (in_cutset c' dq) with false by (cbn; rewrite Ec'; reflexivity). rewrite <- Er. apply rev_string_involutive.
Qed.

(** The [\$(cat ...VERSION)] rewrite does nothing without an opening [\$(cat ]. *)
Lemma replace_cat_dollar_absent : forall s,
    Contains s catOpen = false -> replace_cat_dollar 0 s = s.
Proof.
  induction s as [|c r IH]; intros H; [reflexivity|].
  rewrite Contains_cons in H.
  destruct (String.prefix catOpen (String c r)) eqn:E; [discriminate|].
  cbn [replace_cat_dollar]. cbv zeta. rewrite E. rewrite IH by exact H. reflexivity.
Qed.

(** [getJxArg] of a single unnamed string argument with none of the
    placeholders or version patterns it rewrites is that string, as one line. *)
Lemma getJxArg_plain : forall name s nested,
    edge_quoted s = false -> Contains s catOpen = false -> Contains s "`cat VERSION`" = false ->
    Contains s doubleQuotePlaceholder = false -> Contains s singleQuotePlaceholder = false ->
    Contains s multilineSingleQuotePlaceholder = false ->
    Contains s multilineDoubleQuotePlaceholder = false ->
    getJxArg (mkStep name [Unnamed (VString s)] nested) = [s].
Proof.
  intros name s nested He Hc Hb Hd Hs Hm1 Hm2.
  unfold getJxArg, getArg, removeQuotesAndTrim. cbn [step_args].
  change (ModelStepArg_ToString (Unnamed (VString s))) with (dq ++ s ++ dq).
  rewrite (Trim_dq_quoted s He), (replace_cat_dollar_absent s Hc).
  rewrite (ReplaceAll_absent s "`cat VERSION`") by (discriminate || exact Hb).
  rewrite (ReplaceAll_absent s doubleQuotePlaceholder) by (discriminate || exact Hd).
  rewrite (ReplaceAll_absent s singleQuotePlaceholder) by (discriminate || exact Hs).
  exact (toMultilineQuote_plain s Hm1 Hm2).
Qed.

(** A warning line of the stage loop: a comment at indentation 2. *)
Lemma comment_map_Forall : forall {A} (f : A -> string) l,
    (forall u, exists c, f u = indentLine ("# " ++ c) 2) ->
    Forall (fun l => exists c, l = indentLine ("# " ++ c) 2) (map f l).
Proof.
  intros A f l Hf. apply Forall_forall. intros x Hx.
  apply in_map_iff in Hx as [u [<- _]]. exact (Hf u).
Qed.

(** [stageLoop] only appends comment lines at indentation 2. *)
Lemma stageLoop_warnings : forall stages rel pr lines iss h rel' pr' lines' iss' h',
    stageLoop stages rel pr lines iss h = (Ok (rel', pr', lines', iss'), h') ->
    exists suf, lines' = app lines suf
                /\ Forall (fun l => exists c, l = indentLine ("# " ++ c) 2) suf.
Proof.
  intros stages. induction stages as [|p rest IH];
    intros rel pr lines iss h rel' pr' lines' iss' h' H.
  - cbn [stageLoop st_ret] in H. injection H as _ _ <- _ _.
    exists []. split; [symmetry; apply app_nil_r | constructor].
  - cbn [stageLoop] in H. unfold st_bind at 1, st_get at 1, get_stage at 1 in H.
    destruct (nth_error h p) as [s|] eqn:Hp; [|discriminate].
    assert (Hw : forall u, exists c, whenComment u s = indentLine ("# " ++ c) 2)
      by (intros u; eexists; reflexivity).
    assert (Hpo : exists c, indentLine ("# The Jenkinsfile contains a post directive for the stage '"
                    ++ stage_Name s ++ "'. This is not converted.") 2 = indentLine ("# " ++ c) 2)
      by (eexists; reflexivity).
    assert (Hun : forall u : UnsupportedModelBlock, exists c,
               indentLine ("# The Jenkinsfile contains the " ++ ub_Name u
                 ++ " directive for the stage '" ++ stage_Name s ++ "'. This is not converted.") 2
               = indentLine ("# " ++ c) 2)
      by (intros u; eexists; reflexivity).
    destruct (Stage_getWhen s) as [w|] eqn:Hw';
      [destruct (String.eqb (Branch w) "master") eqn:Hm;
       [|destruct (HasPrefix (Branch w) "PR-") eqn:Hpr;
         [|destruct (when_Unsupported w) eqn:Hu]]|];
      destruct (Stage_getPost s); destruct (Stage_getUnsupported s) eqn:Hus;
      cbv beta iota zeta in H;
      destruct (IH _ _ _ _ _ _ _ _ _ _ H) as (suf & Hl & Hf);
      (eexists; split; [rewrite Hl, <- ?app_assoc; reflexivity|]);
      repeat first [ apply Forall_app; split
                   | apply Forall_cons; [exact Hpo|]
                   | apply comment_map_Forall; first [exact Hw | exact Hun]
                   | apply Forall_nil
                   | exact Hf ].
Qed.

End ArgFacts.
Import ArgFacts.

(** * The claims *)

Import StepFacts HeapFacts PrFacts StageLoopFacts RenderFacts.

(** ** C1 *)

(** C1 (amended): for every flattened step of a stage in the pull-request
    job group (no [when], or a branch other than [master] with the [PR-]
    prefix) whose name is not [sh]/[echo] or whose arguments are not exactly
    one unnamed argument, the rendered YAML contains, as consecutive lines,
    the invalid-step block of [linesForInvalidStep]: the "cannot be
    translated directly" line, the reason line, the "Original step from
    Jenkinsfile" line, the commented reconstruction of the call, and
    [run: echo 'Invalid step <name>, failing' && exit 1]; and the issue
    flag is true. *)
Theorem C1_invalid_step_block : forall marshal iter m h out flag h' p s x,
    ToYaml marshal iter m h = (Ok (out, flag), h') ->
    In p (Model_getStages m) -> nth_error h p = Some s ->
    pr_eligible (Stage_getWhen s) = true ->
    In x (stageBaseSteps s (stageDefaultImage s)) -> invalid_step (sd_step x) = true ->
    flag = true
    /\ Contains out (Join (linesForInvalidStep (sd_step x) (invalid_reason (sd_step x)) 2) nl)
       = true.
Proof.
  intros marshal iter m h out flag h' p s x H Hin Hs He Hx Hinv.
  destruct (ToYaml_decomp _ _ _ _ _ _ _ H) as (header & hflag & prOut & prFlag & Hp & -> & ->).
  assert (Hin' : In p (filter (stage_pr_eligible h) (Model_getStages m))).
  { apply filter_In. split; [exact Hin|]. rewrite (stage_pr_eligible_at _ _ _ Hs). exact He. }
  destruct (prOrRelease_contains _ _ _ _ _ _ _ _ _ _ Hp Hin' Hs) as [Hl Hi].
  destruct (stage_invalid_step s 2 x Hx Hinv) as [H1 H2].
  split.
  - rewrite (Hi H2). apply orb_true_r.
  - apply Contains_complete. apply IsSubstring_trans with prOut; [exact (Hl _ H1)|].
    apply Join_In. apply in_or_app. right. left. reflexivity.
Qed.

Lemma C1_witness :
  true = true
  /\ Contains (Fixtures.out_of (Fixtures.render (Fixtures.pipelineOf [] [0]) [Fixtures.customStage]))
       (Join (linesForInvalidStep Fixtures.customStep "" 2) nl) = true.
Proof.
  exact (C1_invalid_step_block Fixtures.marshal_plain Fixtures.iter_insertion
           (Fixtures.pipelineOf [] [0]) [Fixtures.customStage]
           (Fixtures.out_of (Fixtures.render (Fixtures.pipelineOf [] [0]) [Fixtures.customStage]))
           true [Fixtures.customStage] 0 Fixtures.customStage
           {| sd_step := Fixtures.customStep; sd_dir := ""; sd_image := "maven" |}
           ltac:(vm_compute; reflexivity) ltac:(vm_compute; left; reflexivity)
           ltac:(reflexivity) ltac:(vm_compute; reflexivity)
           ltac:(vm_compute; left; reflexivity) ltac:(vm_compute; reflexivity)).
Defined.

(** C1 counterexample: a [customStep(foo: 1)] step in a stage guarded by
    [branch 'master'] yields no invalid-step block: the stage is rendered in
    no job (the job group is then empty, hence the flag is true). *)
Lemma C1_master_stage_step_not_rendered :
  Contains (Fixtures.out_of (Fixtures.render (Fixtures.pipelineOf [] [0]) [Fixtures.releaseStage]))
    "Invalid step customStep" = false.
Proof. vm_compute. reflexivity. Qed.

(** ** C2 *)

(** C2 (code bug): a stage whose [when] holds an unsupported condition
    ([expression]) is dropped with a warning comment, yet the issue flag
    stays false, while the sibling post and unsupported-directive branches
    of the same loop set it. *)
Lemma C2_unsupported_when_flag_false :
  Fixtures.flag_of (Fixtures.render (Fixtures.pipelineOf [] [0; 1])
                      [Fixtures.exprWhenStage; Fixtures.buildStage]) = Some false
  /\ Contains (Fixtures.out_of (Fixtures.render (Fixtures.pipelineOf [] [0; 1])
                                 [Fixtures.exprWhenStage; Fixtures.buildStage]))
       "unsupported when condition 'expression'" = true.
Proof. vm_compute. split; reflexivity. Qed.

(** ** C3 *)

(** C3 (amended): rendering emits a single job group.  The output is
    exactly the header lines (title, environment, triggers, [jobs:]), the
    pipeline post and unsupported warnings, the warning comments of the
    stage loop (comment lines at indentation 2), and then the jobs that
    [prOrReleasePipelineAsYAML] builds from the stages eligible for the
    pull-request group (no [when], or a branch other than [master] with the
    [PR-] prefix), in their order.  A stage guarded by [master] is not among
    them, so it gets no job. *)
Theorem C3_single_pr_group : forall marshal iter m h out flag h',
    ToYaml marshal iter m h = (Ok (out, flag), h') ->
    (exists envLines warnings prOut prFlag,
        toEnvYamlLines marshal (Model_getEnvironment m) = Ok envLines
        /\ Forall (fun l => exists c, l = indentLine ("# " ++ c) 2) warnings
        /\ prOrReleasePipelineAsYAML marshal iter
             (filter (stage_pr_eligible h) (Model_getStages m)) false h = (Ok (prOut, prFlag), h')
        /\ out = Join (app (headerLines envLines)
                        (app (fst (pipelinePostLines m))
                          (app (pipelineUnsupportedLines m) (app warnings [prOut])))) nl)
    /\ (forall p s w, nth_error h p = Some s -> Stage_getWhen s = Some w ->
          Branch w = "master" -> ~ In p (filter (stage_pr_eligible h) (Model_getStages m))).
Proof.
  intros marshal iter m h out flag h' H. split.
  - unfold ToYaml in H. unfold st_bind at 1, st_lift at 1 in H.
    destruct (toEnvYamlLines marshal (Model_getEnvironment m)) as [envLines| |];
      try discriminate.
    destruct (pipelinePostLines m) as [postLines postIssues] eqn:Hpost.
    cbv beta iota zeta in H. unfold st_bind at 1 in H.
    destruct (stageLoop (Model_getStages m) [] [] _ _ h)
      as [[[[[rel pr] lines] iss]| |] h1] eqn:Hs; try discriminate.
    destruct (stageLoop_spec _ _ _ _ _ _ _ _ _ _ _ Hs) as (-> & _ & Hpr & _ & _).
    destruct (stageLoop_warnings _ _ _ _ _ _ _ _ _ _ _ Hs) as (warn & Hl & Hf).
    cbn [app] in Hpr. subst pr.
    unfold st_bind, st_ret in H.
    destruct (prOrReleasePipelineAsYAML marshal iter _ false h)
      as [[[prOut prFlag]| |] h2] eqn:Hp; try discriminate.
    injection H as <- _ <-.
    exists envLines, warn, prOut, prFlag.
    split; [reflexivity|]. split; [exact Hf|]. split; [first [exact Hp | reflexivity]|].
    rewrite Hl. cbn [fst]. rewrite <- !app_assoc. reflexivity.
  - intros p s w Hs Hw Hb Hin. apply filter_In in Hin as [_ Hin].
    rewrite (stage_pr_eligible_at _ _ _ Hs), Hw in Hin. cbn [pr_eligible] in Hin.
    rewrite Hb in Hin. discriminate.
Qed.

Lemma C3_witness :
  exists envLines warnings prOut prFlag,
    toEnvYamlLines Fixtures.marshal_plain (Model_getEnvironment (Fixtures.pipelineOf [] [0; 1; 2]))
    = Ok envLines
    /\ Forall (fun l => exists c, l = indentLine ("# " ++ c) 2) warnings
    /\ prOrReleasePipelineAsYAML Fixtures.marshal_plain Fixtures.iter_insertion [0; 2] false
         [Fixtures.buildStage; Fixtures.masterStage; Fixtures.prStage]
       = (Ok (prOut, prFlag), [Fixtures.buildStage; Fixtures.masterStage; Fixtures.prStage])
    /\ Fixtures.out_of (Fixtures.render (Fixtures.pipelineOf [] [0; 1; 2])
                          [Fixtures.buildStage; Fixtures.masterStage; Fixtures.prStage])
       = Join (app (headerLines envLines)
                (app (fst (pipelinePostLines (Fixtures.pipelineOf [] [0; 1; 2])))
                  (app (pipelineUnsupportedLines (Fixtures.pipelineOf [] [0; 1; 2]))
                    (app warnings [prOut])))) nl.
Proof.
  exact (proj1 (C3_single_pr_group Fixtures.marshal_plain Fixtures.iter_insertion
           (Fixtures.pipelineOf [] [0; 1; 2])
           [Fixtures.buildStage; Fixtures.masterStage; Fixtures.prStage]
           (Fixtures.out_of (Fixtures.render (Fixtures.pipelineOf [] [0; 1; 2])
                               [Fixtures.buildStage; Fixtures.masterStage; Fixtures.prStage]))
           false [Fixtures.buildStage; Fixtures.masterStage; Fixtures.prStage]
           ltac:(vm_compute; reflexivity))).
Defined.

(** C3 counterexample: with a plain stage, a [master] stage and a [PR-123]
    stage, the output has the jobs [Build] and [PRCheck] and no [Release]
    job (no release group is emitted). *)
Lemma C3_master_stage_absent :
  let out := Fixtures.out_of (Fixtures.render (Fixtures.pipelineOf [] [0; 1; 2])
               [Fixtures.buildStage; Fixtures.masterStage; Fixtures.prStage]) in
  Contains out "Release" = false /\ Contains out "  Build:" = true
  /\ Contains out "  PRCheck:" = true.
Proof. vm_compute. repeat split; reflexivity. Qed.

(** ** C4 *)

(** C4 (code bug): no credential reference is ever translated or marked
    untranslatable.  [ToEnv] checks [StringValue != nil] only for the [$]
    test and then dereferences it unguarded: on an entry holding a
    credential (nil string value) it gives no variable and no issue when
    its key is one of [unusedEnvVars], and otherwise panics; so rendering a
    model whose environment holds such an entry aborts. *)
Theorem C4_credential_entry : forall marshal iter m h e,
    StringValue (env_Value e) = None ->
    ToEnv e = (if mem_string (env_Key e) unusedEnvVars then Ok ([], false) else Panic nil_deref)
    /\ (In e (Model_getEnvironment m) -> mem_string (env_Key e) unusedEnvVars = false ->
        fst (ToYaml marshal iter m h) = Panic nil_deref).
Proof.
  intros marshal iter m h e Hv. split.
  - unfold ToEnv. rewrite Hv. destruct (mem_string (env_Key e) unusedEnvVars); reflexivity.
  - intros Hin Hk.
    assert (Hp : ToEnv e = Panic nil_deref) by (unfold ToEnv; rewrite Hk, Hv; reflexivity).
    unfold ToYaml. unfold st_bind at 1, st_lift at 1, toEnvYamlLines.
    rewrite (envLoop_panic _ [] [] e Hin Hp). reflexivity.
Qed.

Lemma C4_witness :
  ToEnv Fixtures.appNameCred = Ok ([], false)
  /\ fst (ToYaml Fixtures.marshal_plain Fixtures.iter_insertion
            (Fixtures.pipelineOf [Fixtures.credEntry] [0]) [Fixtures.buildStage])
     = Panic nil_deref.
Proof.
  split.
  - exact (proj1 (C4_credential_entry Fixtures.marshal_plain Fixtures.iter_insertion
                    (Fixtures.pipelineOf [] [0]) [Fixtures.buildStage] Fixtures.appNameCred
                    ltac:(reflexivity))).
  - exact (proj2 (C4_credential_entry Fixtures.marshal_plain Fixtures.iter_insertion
                    (Fixtures.pipelineOf [Fixtures.credEntry] [0]) [Fixtures.buildStage]
                    Fixtures.credEntry ltac:(reflexivity))
                 ltac:(simpl; left; reflexivity) ltac:(reflexivity)).
Defined.

(** ** C5 *)

(** C5 (code bug): for [pipeline {] with no closing brace, [GetBlocks]
    does not skip the block: [closingIndex] keeps its zero value and
    [fromCurly[:closingIndex-1]] panics. *)
Lemma C5_unterminated_block_panics :
  GetBlocks Fixtures.unterminatedText = Panic "slice bounds out of range".
Proof. vm_compute. reflexivity. Qed.

(** ** C6 *)

(** C6 (amended): when no stage name holds a space, rendering leaves the
    stage cells unchanged, so rendering the same model again (with the same
    iteration order of the environment map) gives the same text and flag. *)
Theorem C6_rerender_same : forall marshal iter m h,
    no_space_names h = true ->
    snd (ToYaml marshal iter m h) = h
    /\ ToYaml marshal iter m (snd (ToYaml marshal iter m h)) = ToYaml marshal iter m h.
Proof.
  intros marshal iter m h Hn. pose proof (ToYaml_heap marshal iter m h Hn) as E.
  split; [exact E|]. rewrite E. reflexivity.
Qed.

Lemma C6_witness :
  snd (Fixtures.render (Fixtures.pipelineOf [] [0]) [Fixtures.buildStage]) = [Fixtures.buildStage]
  /\ Fixtures.render (Fixtures.pipelineOf [] [0])
       (snd (Fixtures.render (Fixtures.pipelineOf [] [0]) [Fixtures.buildStage]))
     = Fixtures.render (Fixtures.pipelineOf [] [0]) [Fixtures.buildStage].
Proof.
  exact (C6_rerender_same Fixtures.marshal_plain Fixtures.iter_insertion
           (Fixtures.pipelineOf [] [0]) [Fixtures.buildStage] ltac:(reflexivity)).
Defined.

(** C6 counterexample: the stage ["Build it"] with a post block is renamed
    in place to ["Build_it"] by the first render, so the second render's
    post warning names ['Build_it'] and the two texts differ. *)
Lemma C6_rerender_differs :
  let m := Fixtures.pipelineOf [] [0] in
  let r1 := Fixtures.render m [Fixtures.spacedStage] in
  Fixtures.out_of r1 <> Fixtures.out_of (Fixtures.render m (snd r1)).
Proof. vm_compute. discriminate. Qed.

(** ** C7 *)

(** C7 (code bug): a single-quoted argument with embedded double quotes and
    a newline, [sh 'echo "hi"<newline>done'], is escaped before lexing (the
    quotes to [^^DOUBLEQUOTE^^], the newline to [^^NEWLINE^^]) and lexes as
    one [Char] token, but [getJxArg] restores only the quote placeholders:
    the step renders as one [run:] line holding the literal [^^NEWLINE^^].
    In general an [sh] argument free of the other placeholders and of the
    version patterns is rendered verbatim as a single [run:] line, so every
    [^^NEWLINE^^] it holds reaches the output. *)
Theorem C7_newline_placeholder_leaks : forall s image ind,
    edge_quoted s = false -> Contains s catOpen = false -> Contains s "`cat VERSION`" = false ->
    Contains s doubleQuotePlaceholder = false -> Contains s singleQuotePlaceholder = false ->
    Contains s multilineSingleQuotePlaceholder = false ->
    Contains s multilineDoubleQuotePlaceholder = false ->
    stepLinesFor image ind
      {| sd_step := mkStep "sh" [Unnamed (VString s)] []; sd_dir := ""; sd_image := image |}
    = ([indentLine ("run: " ++ s) (ind + 2)], false)
    /\ escapeSingleQuotedOrMultilineStrings Fixtures.quotedSource
       = "sh '" ++ Fixtures.quotedBody ++ "'"
    /\ char_token_value ("'" ++ Fixtures.quotedBody ++ "'") = Some Fixtures.quotedBody
    /\ Stage_toImageAndSteps Fixtures.quotedStage 2
       = ("maven", [indentLine ("run: echo " ++ dq ++ "hi" ++ dq ++ newlinePlaceholder ++ "done") 4],
          false).
Proof.
  intros s image ind He Hc Hb Hd Hs Hm1 Hm2. split.
  - unfold stepLinesFor. cbn [sd_step sd_dir sd_image step_name step_args].
    rewrite (getJxArg_plain "sh" s [] He Hc Hb Hd Hs Hm1 Hm2).
    rewrite (String.eqb_refl image). reflexivity.
  - vm_compute. repeat split; reflexivity.
Qed.

Lemma C7_witness :
  stepLinesFor "maven" 2
    {| sd_step := mkStep "sh" [Unnamed (VString ("echo hi" ++ newlinePlaceholder ++ "done"))] [];
       sd_dir := ""; sd_image := "maven" |}
  = ([indentLine ("run: " ++ ("echo hi" ++ newlinePlaceholder ++ "done")) (2 + 2)], false).
Proof.
  exact (proj1 (C7_newline_placeholder_leaks ("echo hi" ++ newlinePlaceholder ++ "done") "maven" 2
           ltac:(reflexivity) ltac:(reflexivity) ltac:(reflexivity) ltac:(reflexivity)
           ltac:(reflexivity) ltac:(reflexivity) ltac:(reflexivity))).
Defined.

(** ** C8 *)

(** C8: every lookup of the model returns the entries of the first entry
    that has some of that kind, in document order, never a merge: for the
    pipeline its post, environment, stages and unsupported directives, for
    a stage its environment, steps, post and unsupported directives, and the
    first [when].  There is no lookup of [agent]. *)
Theorem C8_first_populated_lookups : forall m s,
    first_populated pe_Post (Pipeline m) (Model_getPost m)
    /\ first_populated pe_Environment (Pipeline m) (Model_getEnvironment m)
    /\ first_populated pe_Stages (Pipeline m) (Model_getStages m)
    /\ first_populated pe_Unsupported (Pipeline m) (Model_getUnsupported m)
    /\ first_populated se_Environment (Entries s) (Stage_getEnvironment s)
    /\ first_populated se_Steps (Entries s) (Stage_getSteps s)
    /\ first_populated se_Post (Entries s) (Stage_getPost s)
    /\ first_populated se_Unsupported (Entries s) (Stage_getUnsupported s)
    /\ ((Stage_getWhen s = None /\ forall e, In e (Entries s) -> se_When e = None)
        \/ (exists pre e post w, Entries s = app pre (e :: post)
            /\ (forall e', In e' pre -> se_When e' = None)
            /\ se_When e = Some w /\ Stage_getWhen s = Some w)).
Proof.
  intros m s. repeat split; try apply first_nonempty_spec.
  apply Stage_getWhen_aux_spec.
Qed.

(** ** C9 *)

(** C9: when the stage's first top-level step is not a [container] step,
    or is one with neither exactly one argument nor a named [name:]
    argument (and when the stage has no step), the stage image is
    ["maven"]. *)
Theorem C9_default_image : forall s ind,
    default_image_case s = true ->
    stageDefaultImage s = "maven" /\ fst (fst (Stage_toImageAndSteps s ind)) = "maven".
Proof.
  intros s ind H. pose proof (default_image_maven s H) as E. split; [exact E|].
  unfold Stage_toImageAndSteps. destruct (stepsLines _ _ _). exact E.
Qed.

Lemma C9_witness :
  stageDefaultImage Fixtures.containerStage = "maven"
  /\ fst (fst (Stage_toImageAndSteps Fixtures.containerStage 2)) = "maven".
Proof. exact (C9_default_image Fixtures.containerStage 2 ltac:(reflexivity)). Defined.

(** ** C10 *)

(** C10 (amended): a stage whose [when] names a branch other than [master]
    without the [PR-] prefix, and that holds no unsupported condition, no
    post and no unsupported directive, disappears silently: rendering gives
    exactly the output and flag of the same model with the stage left out
    of the stage list.  Without the last two conditions the stage can still
    be reported: its post directive gets a warning and sets the issue flag. *)
Theorem C10_silent_stage : forall marshal iter m1 m2 h pre post p s w,
    Model_getStages m1 = app pre (p :: post) -> Model_getStages m2 = app pre post ->
    Model_getEnvironment m1 = Model_getEnvironment m2 -> Model_getPost m1 = Model_getPost m2 ->
    Model_getUnsupported m1 = Model_getUnsupported m2 ->
    nth_error h p = Some s -> Stage_getWhen s = Some w ->
    String.eqb (Branch w) "master" = false -> HasPrefix (Branch w) "PR-" = false ->
    when_Unsupported w = [] -> Stage_getPost s = [] -> Stage_getUnsupported s = [] ->
    ToYaml marshal iter m1 h = ToYaml marshal iter m2 h.
Proof.
  intros marshal iter m1 m2 h pre post p s w Hs1 Hs2 Henv Hpo Hun Hp Hw Hm Hpr Hu Hspo Hsun.
  assert (E1 : pipelinePostLines m1 = pipelinePostLines m2)
    by (unfold pipelinePostLines; rewrite Hpo; reflexivity).
  assert (E2 : pipelineUnsupportedLines m1 = pipelineUnsupportedLines m2)
    by (unfold pipelineUnsupportedLines; rewrite Hun; reflexivity).
  unfold ToYaml. rewrite Henv, E1, E2, Hun, Hs1, Hs2.
  unfold st_bind at 1 3, st_lift at 1 2.
  destruct (toEnvYamlLines marshal (Model_getEnvironment m2)) as [envLines| |];
    try reflexivity.
  destruct (pipelinePostLines m2) as [postLines postIssues].
  cbv beta iota zeta. unfold st_bind at 1 3.
  erewrite stageLoop_app_skip by eauto. reflexivity.
Qed.

Lemma C10_witness :
  ToYaml Fixtures.marshal_plain Fixtures.iter_insertion (Fixtures.pipelineOf [] [0; 1; 2])
    [Fixtures.buildStage; Fixtures.quietStage; Fixtures.prStage]
  = ToYaml Fixtures.marshal_plain Fixtures.iter_insertion (Fixtures.pipelineOf [] [0; 2])
      [Fixtures.buildStage; Fixtures.quietStage; Fixtures.prStage].
Proof.
  exact (C10_silent_stage Fixtures.marshal_plain Fixtures.iter_insertion
           (Fixtures.pipelineOf [] [0; 1; 2]) (Fixtures.pipelineOf [] [0; 2])
           [Fixtures.buildStage; Fixtures.quietStage; Fixtures.prStage]
           [0] [2] 1 Fixtures.quietStage (Fixtures.branch "develop")
           ltac:(reflexivity) ltac:(reflexivity) ltac:(reflexivity) ltac:(reflexivity)
           ltac:(reflexivity) ltac:(reflexivity) ltac:(reflexivity) ltac:(reflexivity)
           ltac:(reflexivity) ltac:(reflexivity) ltac:(reflexivity) ltac:(reflexivity)).
Defined.

(** C10 counterexample: a [develop]-guarded stage with a post block is
    dropped from the jobs but its post directive is reported and sets the
    issue flag. *)
Lemma C10_post_reported :
  Fixtures.flag_of (Fixtures.render (Fixtures.pipelineOf [] [0; 1])
                      [Fixtures.buildStage; Fixtures.developStage]) = Some true
  /\ Fixtures.flag_of (Fixtures.render (Fixtures.pipelineOf [] [0])
                         [Fixtures.buildStage; Fixtures.developStage]) = Some false
  /\ Contains (Fixtures.out_of (Fixtures.render (Fixtures.pipelineOf [] [0; 1])
                                 [Fixtures.buildStage; Fixtures.developStage]))
       "post directive for the stage 'Dev'" = true.
Proof. vm_compute. repeat split; reflexivity. Qed.

(** * Further properties of the code *)

Module Extras.
Import GoStrings StringFacts StepFacts HeapFacts PrFacts StageLoopFacts RenderFacts ArgFacts.

(** X1 ([isSupportedField]): a field is supported exactly when its membership in the list differs from [isBlacklist]: listed fields are supported for a whitelist and unsupported for a blacklist, unlisted ones the other way round. *)
Lemma isSupportedField_mem : forall name fields isBlacklist,
    isSupportedField name fields isBlacklist
    = if mem_string name fields then negb isBlacklist else isBlacklist.
Proof.
  intros name fields b. induction fields as [|f r IH]; [reflexivity|].
  cbn [isSupportedField]. unfold mem_string. cbn [existsb].
  destruct (String.eqb name f); [reflexivity|]. exact IH.
Qed.

(** X2 ([escapeUnsupportedFieldsInContext]): the text is returned unchanged when the block is not the given context or every nested block of it is supported. *)
Lemma escapeUnsupported_unchanged : forall block context fields jf isBlacklist,
    (match block with mkCurly name nested _ _ =>
       String.eqb name context = false
       \/ Forall (fun n => match n with mkCurly nName _ _ _ =>
                            isSupportedField nName fields isBlacklist = true end) nested end) ->
    escapeUnsupportedFieldsInContext block context fields jf isBlacklist = jf.
Proof.
  intros [name nested o r] context fields jf b H. unfold escapeUnsupportedFieldsInContext.
  destruct H as [H | H]; [rewrite H; reflexivity|].
  destruct (String.eqb name context); [|reflexivity].
  revert jf. induction H as [|[nn nn' no nr] l Hx Hl IH]; intros jf; [reflexivity|].
  cbn [fold_left]. rewrite Hx. cbn [negb]. apply IH.
Qed.

Lemma split_char_nonempty : forall c s, split_char c s <> [].
Proof.
  intros c [|d r]; cbn [split_char]; [discriminate|].
  destruct (Ascii.eqb d c); [discriminate|]. destruct (split_char c r); discriminate.
Qed.

Lemma ModelStep_rect2 (P : ModelStep -> Prop)
  (H : forall n a l, Forall P l -> P (mkStep n a l)) : forall m, P m.
Proof.
  fix IH 1. intros [n a l]. apply H.
  exact ((fix go (l : list ModelStep) : Forall P l :=
            match l with
            | [] => Forall_nil _
            | x :: r => Forall_cons _ (IH x) (go r)
            end) l).
Qed.

Lemma nested_go_eq : forall (l : list ModelStep) d i,
  (fix go (l : list ModelStep) : list stepDirAndImage :=
     match l with
     | [] => []
     | s :: r => (nestedStepsWithDirAndImage s d i ++ go r)%list
     end) l = flat_map (fun s => nestedStepsWithDirAndImage s d i) l.
Proof. induction l as [|s r IH]; intros d i; [reflexivity|]. cbn. rewrite IH. reflexivity. Qed.

(** X4 ([nestedStepsWithDirAndImage]): the steps produced are exactly the leaves of the step tree, from left to right, and none of them has nested steps. *)
Lemma nestedSteps_leaves : forall m baseDir baseImage,
    map sd_step (nestedStepsWithDirAndImage m baseDir baseImage) = step_leaves m
    /\ Forall (fun x => step_nested (sd_step x) = []) (nestedStepsWithDirAndImage m baseDir baseImage).
Proof.
  apply (ModelStep_rect2 (fun m => forall baseDir baseImage,
    map sd_step (nestedStepsWithDirAndImage m baseDir baseImage) = step_leaves m
    /\ Forall (fun x => step_nested (sd_step x) = []) (nestedStepsWithDirAndImage m baseDir baseImage))).
  intros n a l HF d i.
  assert (Hgen : forall d' i', 
    map sd_step (flat_map (fun s => nestedStepsWithDirAndImage s d' i') l) = flat_map step_leaves l
    /\ Forall (fun x => step_nested (sd_step x) = []) (flat_map (fun s => nestedStepsWithDirAndImage s d' i') l)).
  { intros d' i'. clear d i. induction HF as [|x xs Hx Hxs IH]; [split; [reflexivity | constructor]|].
    destruct (Hx d' i') as [H1 H2]. destruct IH as [H3 H4].
    cbn [flat_map]. rewrite map_app, H1, H3. split; [reflexivity|].
    apply Forall_app. split; assumption. }
  destruct l as [|s r].
  - split; [reflexivity|]. repeat constructor.
  - cbn [nestedStepsWithDirAndImage]. rewrite nested_go_eq. apply Hgen.
Qed.

Lemma nested_flat_map_Forall : forall (P : stepDirAndImage -> Prop) (Q : ModelStep -> Prop) l d i,
    Forall (fun m => Q m -> Forall P (nestedStepsWithDirAndImage m d i)) l ->
    Forall Q l ->
    Forall P (flat_map (fun s => nestedStepsWithDirAndImage s d i) l).
Proof.
  intros P Q l d i H1 H2. induction H2 as [|x xs Hx Hxs IH]; [constructor|].
  inversion H1; subst. cbn [flat_map]. apply Forall_app. auto.
Qed.

Lemma nestedSteps_internal : forall n a s r d i,
    nestedStepsWithDirAndImage (mkStep n a (s :: r)) d i
    = flat_map (fun s0 => nestedStepsWithDirAndImage s0
                  (if String.eqb n "dir" then Trim (getArg (mkStep n a (s :: r))) "./" else d)
                  (if String.eqb n "dir" then i
                   else if String.eqb n "container" then imageFromContainerStep (mkStep n a (s :: r))
                   else i)) (s :: r).
Proof. intros. rewrite <- nested_go_eq. reflexivity. Qed.

Lemma nestedSteps_no_dir_container : forall m d i,
    no_dir_container m = true ->
    Forall (fun x => sd_dir x = d /\ sd_image x = i) (nestedStepsWithDirAndImage m d i).
Proof.
  apply (ModelStep_rect2 (fun m => forall d i, no_dir_container m = true ->
    Forall (fun x => sd_dir x = d /\ sd_image x = i) (nestedStepsWithDirAndImage m d i))).
  intros n a l HF d i H. destruct l as [|s r]; [repeat constructor|].
  cbn [no_dir_container] in H. apply andb_prop in H as [H Hall].
  apply andb_prop in H as [Hd Hc]. apply negb_true_iff in Hd, Hc.
  rewrite nestedSteps_internal, Hd, Hc.
  apply (nested_flat_map_Forall _ (fun m => no_dir_container m = true)).
  - eapply Forall_impl; [|exact HF]. intros m Hm. apply Hm.
  - rewrite forallb_forall in Hall. apply Forall_forall. exact Hall.
Qed.

(** X5 ([nestedStepsWithDirAndImage]): for a [dir] step with nested steps, none of which is itself [dir] or [container] at any depth, every produced step gets the trimmed [dir] argument as directory and keeps the image; for a [container] step it keeps the directory and gets the container's image. *)
Theorem dir_container_scope : forall name args nested d i,
    nested <> [] -> forallb no_dir_container nested = true ->
    (name = "dir" ->
       Forall (fun x => sd_dir x = Trim (getArg (mkStep name args nested)) "./" /\ sd_image x = i)
              (nestedStepsWithDirAndImage (mkStep name args nested) d i))
    /\ (name = "container" ->
       Forall (fun x => sd_dir x = d /\ sd_image x = imageFromContainerStep (mkStep name args nested))
              (nestedStepsWithDirAndImage (mkStep name args nested) d i)).
Proof.
  intros name args nested d i Hne Hall. rewrite forallb_forall, <- Forall_forall in Hall.
  destruct nested as [|s r]; [contradiction|].
  split; intros ->; rewrite nestedSteps_internal; cbn [String.eqb Ascii.eqb Bool.eqb];
    apply (nested_flat_map_Forall _ (fun m => no_dir_container m = true)); try exact Hall;
    apply Forall_forall; intros m _ Hm; apply nestedSteps_no_dir_container, Hm.
Qed.

(** X6 ([getArg], [removeQuotesAndTrim]): the argument of a step with a single unnamed string argument is that string, when it neither starts nor ends with a double quote. *)
Theorem getArg_single_string : forall name s nested,
    edge_quoted s = false -> getArg (mkStep name [Unnamed (VString s)] nested) = s.
Proof.
  intros name s nested H. unfold getArg, removeQuotesAndTrim. cbn [step_args].
  apply Trim_dq_quoted, H.
Qed.

(** X7 ([shouldRemove]): a step with one unnamed string argument is removed exactly when it is an [sh] step whose command is one of [stepsToRemove]; a step with one named argument is never removed. *)
Theorem shouldRemove_cases : forall name s k v nested,
    (edge_quoted s = false ->
     shouldRemove (mkStep name [Unnamed (VString s)] nested)
     = String.eqb name "sh" && mem_string s stepsToRemove)
    /\ shouldRemove (mkStep name [Named k v] nested) = false.
Proof.
  intros name s k v nested. split.
  - intros H. unfold shouldRemove. cbn [step_args step_name ModelStepArg_ToString Value_ToString].
    rewrite Trim_dq_quoted by exact H. reflexivity.
  - unfold shouldRemove. cbn [step_args step_name ModelStepArg_ToString].
    unfold Trim.
    destruct (TrimRight_keeps_prefix "" "k"%char ("ey: " ++ k ++ ", val: " ++ Value_ToString v) dq eq_refl)
      as [q' Hq].
    replace (TrimLeft ("key: " ++ k ++ ", val: " ++ Value_ToString v) dq)
      with ("" ++ String "k"%char ("ey: " ++ k ++ ", val: " ++ Value_ToString v)) by reflexivity.
    rewrite Hq.
    destruct (String.eqb name "sh"); reflexivity.
Qed.

Lemma append_nonempty_r : forall x y, y <> "" -> x ++ y <> "".
Proof. intros [|c x] y H; cbn; [exact H | discriminate]. Qed.

(** X8 ([toOriginalGroovy]): the Groovy text of a step is empty exactly when the step has nested steps. *)
Theorem toOriginalGroovy_empty_iff : forall m,
    toOriginalGroovy m = "" <-> step_nested m <> [].
Proof.
  intros [name args nested]. unfold toOriginalGroovy. cbn [step_nested].
  destruct nested as [|n ns]; [|split; [discriminate | reflexivity]].
  split; [|intros H; contradiction H; reflexivity]. intros H; exfalso.
  cbn [step_args step_name] in H.
  destruct args as [|[v|k v] [|a r]]; unfold Join in H; cbn [String.concat] in H;
    try (destruct (Contains _ _) in H); revert H; apply append_nonempty_r; discriminate.
Qed.

Lemma envHasKey_key_in : forall k l, envHasKey k l = true <-> key_in k l.
Proof.
  intros k l. unfold envHasKey, key_in. rewrite existsb_exists.
  split; intros [e [Hin He]]; exists e; split; auto; apply String.eqb_eq; auto.
Qed.

Lemma key_in_app : forall k l1 l2, key_in k (l1 ++ l2) <-> key_in k l1 \/ key_in k l2.
Proof.
  intros k l1 l2. unfold key_in. split.
  - intros [e [Hin He]]. apply in_app_or in Hin as [H|H]; [left|right]; eauto.
  - intros [[e [Hin He]]|[e [Hin He]]]; exists e; split; auto; apply in_or_app; auto.
Qed.

Lemma key_in_cons : forall k x l, key_in k (x :: l) <-> env_Key x = k \/ key_in k l.
Proof.
  intros k x l. unfold key_in. split.
  - intros [e [[<-|Hin] He]]; [left|right]; eauto.
  - intros [He|[e [Hin He]]]; [exists x|exists e]; split; cbn; auto.
Qed.

Lemma key_in_nil : forall k, ~ key_in k [].
Proof. intros k [e [[] _]]. Qed.

Lemma dedupEnv_In : forall l acc e,
    In e (dedupEnv acc l) <->
    In e acc \/ (env_Key e <> "" /\ ~ key_in (env_Key e) acc
                 /\ exists pre post, l = app pre (e :: post) /\ ~ key_in (env_Key e) pre).
Proof.
  induction l as [|x r IH]; intros acc e; cbn [dedupEnv].
  - split; [auto|]. intros [H|(_ & _ & pre & post & H & _)]; [exact H|].
    destruct pre; discriminate.
  - destruct (negb (envHasKey (env_Key x) acc) && negb (String.eqb (env_Key x) "")) eqn:C.
    + apply andb_prop in C as [C1 C2]. apply negb_true_iff in C1, C2.
      assert (Hx1 : ~ key_in (env_Key x) acc)
        by (rewrite <- envHasKey_key_in; rewrite C1; discriminate).
      assert (Hx2 : env_Key x <> "") by (intro E; rewrite E in C2; discriminate).
      rewrite IH. split.
      * intros [H|(Hne & Hacc & pre & post & Hr & Hpre)].
        -- apply in_app_or in H as [H|[<-|[]]]; [left; exact H|].
           right. split; [exact Hx2|]. split; [exact Hx1|]. exists [], r. split; [reflexivity|apply key_in_nil].
        -- right. rewrite key_in_app in Hacc. split; [exact Hne|]. split; [tauto|].
           exists (x :: pre), post. split; [rewrite Hr; reflexivity|].
           rewrite key_in_cons. intros [E|E]; [apply Hacc; right; rewrite <- E; exists x; split; [left|]; reflexivity | tauto].
      * intros [H|(Hne & Hacc & pre & post & Hr & Hpre)].
        -- left. apply in_or_app. left. exact H.
        -- destruct pre as [|y pre].
           ++ injection Hr as <- _. left. apply in_or_app. right. left. reflexivity.
           ++ injection Hr as <- Hr. rewrite key_in_cons in Hpre.
              right. split; [exact Hne|]. split.
              ** rewrite key_in_app. intros [E|[z [[<-|[]] E]]]; [tauto|]. apply Hpre. left. exact E.
              ** exists pre, post. split; [exact Hr|]. tauto.
    + rewrite IH. split.
      * intros [H|(Hne & Hacc & pre & post & Hr & Hpre)]; [left; exact H|].
        right. split; [exact Hne|]. split; [exact Hacc|].
        exists (x :: pre), post. split; [rewrite Hr; reflexivity|].
        rewrite key_in_cons. intros [E|E]; [|tauto].
        apply andb_false_iff in C as [C|C]; apply negb_false_iff in C.
        -- apply Hacc. rewrite <- E. apply envHasKey_key_in, C.
        -- apply String.eqb_eq in C. apply Hne. rewrite <- E. exact C.
      * intros [H|(Hne & Hacc & pre & post & Hr & Hpre)]; [left; exact H|].
        destruct pre as [|y pre].
        -- exfalso. injection Hr as -> _.
           apply andb_false_iff in C as [C|C]; apply negb_false_iff in C.
           ++ apply Hacc, envHasKey_key_in, C.
           ++ apply String.eqb_eq in C. contradiction.
        -- injection Hr as <- Hr. rewrite key_in_cons in Hpre.
           right. split; [exact Hne|]. split; [exact Hacc|]. exists pre, post. split; [exact Hr|tauto].
Qed.

Lemma dedupEnv_NoDup : forall l acc,
    NoDup (map env_Key acc) -> NoDup (map env_Key (dedupEnv acc l)).
Proof.
  induction l as [|x r IH]; intros acc H; cbn [dedupEnv]; [exact H|].
  destruct (negb (envHasKey (env_Key x) acc) && negb (String.eqb (env_Key x) "")) eqn:C; apply IH; [|exact H].
  apply andb_prop in C as [C1 _]. apply negb_true_iff in C1.
  rewrite map_app. cbn [map].
  apply (Permutation_NoDup (Permutation_cons_append _ _)). constructor; [|exact H].
  intros Hin. apply in_map_iff in Hin as [e [He Hin]].
  assert (Hk : envHasKey (env_Key x) acc = true)
    by (apply envHasKey_key_in; exists e; split; assumption).
  rewrite Hk in C1. discriminate.
Qed.

(** X9 (the environment dedup loop of [prOrReleasePipelineAsYAML]): starting from an accumulator with distinct keys, the result has distinct keys and holds the accumulator plus, for each non-empty key absent from it, exactly the first entry of the list with that key. *)
Theorem dedupEnv_first_occurrence : forall acc l,
    NoDup (map env_Key acc) ->
    NoDup (map env_Key (dedupEnv acc l))
    /\ (forall e, In e (dedupEnv acc l) <->
          In e acc \/ (env_Key e <> "" /\ ~ key_in (env_Key e) acc
                       /\ exists pre post, l = app pre (e :: post) /\ ~ key_in (env_Key e) pre)).
Proof.
  intros acc l H. split; [apply dedupEnv_NoDup, H|]. intros e. apply dedupEnv_In.
Qed.

Lemma dedupEnv_first_occurrence_witness :
  NoDup (map env_Key [])
  /\ NoDup (map env_Key (dedupEnv [] [Fixtures.credEntry; Fixtures.credEntry]))
  /\ (forall e, In e (dedupEnv [] [Fixtures.credEntry; Fixtures.credEntry]) <->
        In e [] \/ (env_Key e <> "" /\ ~ key_in (env_Key e) []
                    /\ exists pre post, [Fixtures.credEntry; Fixtures.credEntry] = app pre (e :: post)
                                         /\ ~ key_in (env_Key e) pre)).
Proof.
  assert (H : NoDup (map env_Key (@nil ModelEnvironmentEntry))) by (cbn; constructor).
  split; [exact H|]. exact (dedupEnv_first_occurrence [] _ H).
Defined.

Lemma envLoop_nothing : forall l inv,
    forallb converts_to_nothing l = true ->
    envLoop l inv [] = Ok (app inv (map invalidVarComment
                                  (filter (fun e => negb (mem_string (env_Key e) unusedEnvVars)) l)), []).
Proof.
  induction l as [|e r IH]; intros inv H; cbn [envLoop].
  - rewrite app_nil_r. reflexivity.
  - cbn [forallb] in H. apply andb_prop in H as [He Hr].
    unfold converts_to_nothing in He. unfold ToEnv. cbn [filter].
    destruct (mem_string (env_Key e) unusedEnvVars) eqn:Em; cbn [negb orb res_bind] in *.
    + rewrite IH by exact Hr. reflexivity.
    + destruct (StringValue (env_Value e)) as [v|]; [|discriminate]. rewrite He. cbn [res_bind].
      rewrite IH by exact Hr. rewrite <- app_assoc. reflexivity.
Qed.

(** X10 ([toEnvYamlLines]): when every entry has an unused key or a string value holding a [$], the output is just the warning comments for the entries with a used key, in order, and the marshaller's result is not used. *)
Theorem toEnvYamlLines_nothing_converted : forall marshal l,
    forallb converts_to_nothing l = true ->
    toEnvYamlLines marshal l
    = Ok (map invalidVarComment (filter (fun e => negb (mem_string (env_Key e) unusedEnvVars)) l)).
Proof.
  intros marshal l H. unfold toEnvYamlLines. rewrite envLoop_nothing by exact H. reflexivity.
Qed.

Lemma prLoop_no_steps : forall h0 stages prev acc hc acc' hc',
    same_entries h0 hc ->
    prLoop prev stages acc hc = (Ok acc', hc') ->
    (forall p s0, In p stages -> nth_error h0 p = Some s0 ->
                  snd (fst (Stage_toImageAndSteps s0 2)) = []) ->
    a_stepLines acc' = a_stepLines acc.
Proof.
  intros h0 stages. induction stages as [|p rest IH]; intros prev acc hc acc' hc' Hs H Hno.
  - cbn [prLoop st_ret] in H. injection H as <- <-. reflexivity.
  - cbn [prLoop] in H. unfold st_bind at 1, st_get at 1, get_stage at 1 in H.
    destruct (nth_error hc p) as [s0c|] eqn:Hp; [|discriminate].
    unfold st_bind at 1, st_put at 1 in H.
    assert (Hs1 : same_entries h0 (set_nth hc p (rename_stage s0c)))
      by (apply (same_entries_put _ _ _ s0c); auto).
    assert (Hst : snd (fst (Stage_toImageAndSteps (rename_stage s0c) 2)) = []).
    { specialize (Hs p). rewrite Hp in Hs.
      destruct (nth_error h0 p) as [s0|] eqn:H0; [|discriminate].
      injection Hs as Hs.
      rewrite (Stage_toImageAndSteps_entries (rename_stage s0c) s0 2 (eq_sym Hs)).
      apply (Hno p s0); [left; reflexivity | exact H0]. }
    set (hc1 := set_nth hc p (rename_stage s0c)) in *.
    assert (Hno' : forall p s0, In p rest -> nth_error h0 p = Some s0 ->
                     snd (fst (Stage_toImageAndSteps s0 2)) = [])
      by (intros p' s0 Hin; apply Hno; right; exact Hin).
    destruct prev as [q|].
    + unfold st_bind, st_get, st_ret, get_stage in H.
      destruct (nth_error hc1 q) as [sq|]; [|discriminate].
      destruct (Stage_toImageAndSteps (rename_stage s0c) 2) as [[img ss] iss] eqn:Ei.
      cbn [fst snd] in Hst. subst ss.
      rewrite (IH _ _ _ _ _ Hs1 H Hno'). cbn [a_stepLines]. apply app_nil_r.
    + unfold st_bind, st_ret in H.
      destruct (Stage_toImageAndSteps (rename_stage s0c) 2) as [[img ss] iss] eqn:Ei.
      cbn [fst snd] in Hst. subst ss.
      rewrite (IH _ _ _ _ _ Hs1 H Hno'). cbn [a_stepLines]. apply app_nil_r.
Qed.

Lemma prOrRelease_no_steps : forall marshal iter stages isRel h out flag h',
    prOrReleasePipelineAsYAML marshal iter stages isRel h = (Ok (out, flag), h') ->
    (forall p s0, In p stages -> nth_error h p = Some s0 ->
                  snd (fst (Stage_toImageAndSteps s0 2)) = []) ->
    flag = true
    /\ IsSubstring (indentLine "runs: echo 'No stages found, failing' && exit 1" 2) out.
Proof.
  intros marshal iter stages isRel h out flag h' H Hno.
  unfold prOrReleasePipelineAsYAML in H. unfold st_bind at 1 in H.
  destruct (prLoop None stages _ h) as [[acc| |] h1] eqn:Hl; try discriminate.
  pose proof (prLoop_no_steps h _ _ _ _ _ _ (same_entries_refl h) Hl Hno) as Hsl.
  cbn [a_stepLines] in Hsl.
  unfold st_bind, st_lift, st_ret in H.
  destruct (toEnvYamlLines marshal (iter (a_env acc))) as [envY| |]; try discriminate.
  cbv zeta in H. rewrite Hsl in H. injection H as <- <- _. split; [reflexivity|].
  apply Join_In. apply in_or_app. right. right. right. left. reflexivity.
Qed.

(** X12 ([ToYaml]): when no stage eligible for the PR pipeline has any step, rendering sets the issue flag and writes the failing [No stages found] command. *)
Theorem ToYaml_flags_without_pr_steps : forall marshal iter m h out flag h',
    ToYaml marshal iter m h = (Ok (out, flag), h') ->
    (forall p s0, In p (Model_getStages m) -> stage_pr_eligible h p = true ->
                  nth_error h p = Some s0 -> snd (fst (Stage_toImageAndSteps s0 2)) = []) ->
    flag = true
    /\ IsSubstring (indentLine "runs: echo 'No stages found, failing' && exit 1" 2) out.
Proof.
  intros marshal iter m h out flag h' H Hno.
  destruct (ToYaml_decomp _ _ _ _ _ _ _ H) as (header & hflag & prOut & prFlag & Hp & -> & ->).
  destruct (prOrRelease_no_steps _ _ _ _ _ _ _ _ Hp) as [-> Hsub].
  - intros p s0 Hin. apply filter_In in Hin as [Hin Hel]. apply Hno; assumption.
  - split; [apply orb_true_r|].
    apply (IsSubstring_trans _ _ _ Hsub). apply Join_In. apply in_or_app. right. left. reflexivity.
Qed.

Lemma ToYaml_flags_without_pr_steps_witness :
  let h := [Fixtures.setupStage] in
  let m := Fixtures.pipelineOf [] [0] in
  Fixtures.render m h = (Ok (Fixtures.out_of (Fixtures.render m h), true), h)
  /\ true = true
  /\ IsSubstring (indentLine "runs: echo 'No stages found, failing' && exit 1" 2)
                 (Fixtures.out_of (Fixtures.render m h)).
Proof.
  cbv zeta.
  assert (E : Fixtures.render (Fixtures.pipelineOf [] [0]) [Fixtures.setupStage]
              = (Ok (Fixtures.out_of (Fixtures.render (Fixtures.pipelineOf [] [0]) [Fixtures.setupStage]), true),
                 [Fixtures.setupStage])) by (vm_compute; reflexivity).
  split; [exact E|].
  exact (ToYaml_flags_without_pr_steps _ _ _ _ _ _ _ E
           ltac:(intros p s0 [<-|[]] _ Hs; cbn in Hs; injection Hs as <-; vm_compute; reflexivity)).
Defined.

Lemma prefix_sound : forall x t, String.prefix x t = true -> exists y, t = x ++ y.
Proof.
  induction x as [|c x IH]; intros t H; [exists t; reflexivity|].
  destruct t as [|d t]; [discriminate|]. cbn in H.
  destruct (ascii_dec c d) as [<-|]; [|discriminate].
  destruct (IH t H) as [y ->]. exists y. reflexivity.
Qed.

Lemma Contains_sound : forall s x, Contains s x = true -> IsSubstring x s.
Proof.
  induction s as [|c s IH]; intros x H.
  - cbn in H. destruct x; [|discriminate]. exists "", "". reflexivity.
  - rewrite Contains_cons in H. destruct (String.prefix x (String c s)) eqn:E.
    + destruct (prefix_sound _ _ E) as [y Hy]. exists "", y. exact Hy.
    + destruct (IH x H) as [a [b ->]]. exists (String c a), b. reflexivity.
Qed.

Lemma Contains_iff : forall s x, Contains s x = true <-> IsSubstring x s.
Proof. split; [apply Contains_sound | apply Contains_complete]. Qed.

Lemma substring_full : forall s, String.substring 0 (String.length s) s = s.
Proof. induction s as [|c s IH]; [reflexivity|]. cbn. rewrite IH. reflexivity. Qed.

Lemma drop_suffix : forall n s, IsSubstring (drop n s) s.
Proof.
  unfold drop. intros n s. revert n. induction s as [|c s IH]; intros n.
  - exists "", "". destruct n; reflexivity.
  - destruct n as [|k].
    + rewrite Nat.sub_0_r, substring_full. exists "", "". rewrite append_empty_r. reflexivity.
    + cbn [String.length String.substring]. rewrite Nat.sub_succ.
      destruct (IH k) as [a [b Hb]]. exists (String c a), b. cbn. rewrite <- Hb. reflexivity.
Qed.

Lemma Contains_false_sub : forall s t x,
    Contains s x = false -> IsSubstring t s -> Contains t x = false.
Proof.
  intros s t x H Ht. destruct (Contains t x) eqn:E; [|reflexivity].
  apply Contains_sound in E. rewrite (Contains_complete _ _ (IsSubstring_trans _ _ _ E Ht)) in H.
  discriminate.
Qed.

Lemma Contains_false_app_l : forall s x y, Contains s x = false -> Contains s (x ++ y) = false.
Proof.
  intros s x y H. destruct (Contains s (x ++ y)) eqn:E; [|reflexivity].
  apply Contains_sound in E. destruct E as [a [b E]].
  rewrite (Contains_complete x s) in H; [discriminate|].
  exists a, (y ++ b). rewrite E, <- append_assoc. reflexivity.
Qed.

Lemma get_Contains : forall n t c, String.get n t = Some c -> Contains t (String c "") = true.
Proof.
  intros n t c H. apply Contains_complete. revert n H. induction t as [|d t IH]; intros n H.
  - destruct n; discriminate.
  - destruct n as [|k].
    + injection H as <-. exists "", t. reflexivity.
    + destruct (IH k H) as [a [b ->]]. exists (String d a), b. reflexivity.
Qed.

Lemma ws_brace_brace : forall t n, ws_brace t = Some n -> Contains t "{" = true.
Proof.
  intros t n H. unfold ws_brace in H.
  destruct (lead_len is_re_space t) as [|w]; [discriminate|].
  destruct (String.get (S w) t) as [c|] eqn:E; [|discriminate].
  destruct (Ascii.eqb_spec c "{"%char) as [->|Hn].
  - exact (get_Contains _ _ _ E).
  - exfalso. revert H. destruct c as [[] [] [] [] [] [] [] []]; try discriminate. contradiction.
Qed.

Lemma paren_tail_brace : forall t n, paren_tail t = Some n -> Contains t "{" = true.
Proof.
  induction t as [|c t IH]; intros n H; [discriminate|].
  cbn [paren_tail] in H. rewrite Contains_cons.
  destruct (String.prefix "{" (String c t)); [reflexivity|].
  destruct (Ascii.eqb c "010"%char); [discriminate|].
  destruct (Ascii.eqb c ")"%char).
  - destruct (ws_brace t) as [k|] eqn:Ew; [exact (ws_brace_brace _ _ Ew)|].
    destruct (paren_tail t) as [k|] eqn:Ep; [exact (IH _ eq_refl)|discriminate].
  - destruct (paren_tail t) as [k|] eqn:Ep; [exact (IH _ eq_refl)|discriminate].
Qed.

Lemma block_match_at_brace : forall s, Contains s "{" = false -> block_match_at s = None.
Proof.
  intros s H. unfold block_match_at.
  destruct (lead_len is_word s) as [|w]; [reflexivity|].
  assert (Hd : Contains (drop (S w) s) "{" = false) by exact (Contains_false_sub _ _ _ H (drop_suffix _ _)).
  destruct (drop (S w) s) as [|c r] eqn:Ed; [reflexivity|].
  assert (Hr : Contains r "{" = false).
  { apply (Contains_false_sub _ _ _ Hd). exists (String c ""), "". rewrite append_empty_r. reflexivity. }
  clear Ed H.
  destruct c as [[] [] [] [] [] [] [] []]; cbv beta iota;
    first [ destruct (paren_tail r) eqn:Ep;
              [apply paren_tail_brace in Ep; rewrite Ep in Hr; discriminate | reflexivity]
          | destruct (ws_brace _) eqn:Ew;
              [apply ws_brace_brace in Ew; rewrite Ew in Hd; discriminate | reflexivity] ].
Qed.

Lemma find_blocks_brace : forall s pos skip, Contains s "{" = false -> find_blocks pos skip s = [].
Proof.
  induction s as [|c r IH]; intros pos skip H; [reflexivity|].
  assert (Hr : Contains r "{" = false).
  { apply (Contains_false_sub _ _ _ H). exists (String c ""), "". rewrite append_empty_r. reflexivity. }
  cbn [find_blocks]. destruct skip as [|k]; [|apply IH, Hr].
  rewrite block_match_at_brace by exact H. apply IH, Hr.
Qed.

(** X13 ([GetBlocks]): a text without an opening brace has no blocks. *)
Theorem GetBlocks_no_brace : forall s, Contains s "{" = false -> GetBlocks s = Ok [].
Proof.
  intros s H. unfold GetBlocks. cbn [GetBlocks_fuel]. rewrite find_blocks_brace by exact H.
  reflexivity.
Qed.

Lemma Contains_tail : forall c r x, Contains (String c r) x = false -> Contains r x = false.
Proof.
  intros c r x H. apply (Contains_false_sub _ _ _ H). exists (String c ""), "".
  rewrite append_empty_r. reflexivity.
Qed.

Lemma find_triple_absent : forall q s skip, Contains s q = false -> find_triple q skip s = [].
Proof.
  intros q. induction s as [|c r IH]; intros skip H; [reflexivity|].
  pose proof (Contains_tail _ _ _ H) as Hr.
  cbn [find_triple]. destruct skip as [|k]; [|apply IH, Hr].
  rewrite Contains_cons in H. destruct (String.prefix q (String c r)); [discriminate|].
  apply IH, Hr.
Qed.

Lemma scan_step_keeps : forall prev c st,
    c <> "'"%char -> stringsToReplace (scan_step prev c st) = stringsToReplace st.
Proof.
  intros prev c st Hc. unfold scan_step.
  destruct (Ascii.eqb_spec c "'"%char) as [E|_]; [contradiction|].
  repeat match goal with |- context [if ?b then _ else _] => destruct b end; reflexivity.
Qed.

Lemma scan_keeps : forall s prev st,
    Contains s "'" = false -> stringsToReplace (scan prev s st) = stringsToReplace st.
Proof.
  induction s as [|c r IH]; intros prev st H; [reflexivity|].
  cbn [scan]. rewrite IH by exact (Contains_tail _ _ _ H).
  apply scan_step_keeps. intros ->.
  rewrite (Contains_complete "'" (String "'"%char r)) in H; [discriminate|]. exists "", r. reflexivity.
Qed.

(** X14 ([escapeSingleQuotedOrMultilineStrings]): a text without a single quote and without a triple double quote is returned unchanged. *)
Theorem escapeSingleQuoted_no_quotes : forall s,
    Contains s "'" = false -> Contains s tdq = false ->
    escapeSingleQuotedOrMultilineStrings s = s.
Proof.
  intros s H1 H2. unfold escapeSingleQuotedOrMultilineStrings.
  rewrite (find_triple_absent tsq s 0) by (exact (Contains_false_app_l s "'" "''" H1)).
  cbn [fold_left]. rewrite (find_triple_absent tdq s 0) by exact H2. cbn [fold_left].
  rewrite scan_keeps by exact H1. reflexivity.
Qed.

Lemma split_char_cons_ne : forall c r, exists w ws, split_char c r = w :: ws.
Proof.
  intros c r. destruct (split_char c r) as [|w ws] eqn:E; [|eauto].
  exfalso. exact (split_char_nonempty c r E).
Qed.

Lemma Join_split_cons : forall sep c r,
    Join (split_char "010"%char (String c r)) sep
    = if Ascii.eqb c "010"%char then sep ++ Join (split_char "010"%char r) sep
      else String c (Join (split_char "010"%char r) sep).
Proof.
  intros sep c r. cbn [split_char].
  destruct (split_char_cons_ne "010"%char r) as (w & ws & E). rewrite E.
  destruct (Ascii.eqb c "010"%char); unfold Join; cbn [String.concat].
  - destruct ws; reflexivity.
  - destruct ws; reflexivity.
Qed.

Lemma TrimPrefix_empty : forall l, TrimPrefix l "" = l.
Proof.
  intros l. unfold TrimPrefix. cbn [String.prefix String.length].
  destruct l; [reflexivity|]. rewrite Nat.sub_0_r. apply substring_full.
Qed.

Lemma dedent_lines_noindent : forall ls,
    forallb (fun l => match l with
                      | String c _ => negb (is_re_space c)
                      | EmptyString => true
                      end) ls = true ->
    dedent_lines "" ls = ls.
Proof.
  induction ls as [|l r IH]; intros H; [reflexivity|].
  cbn [forallb] in H. apply andb_prop in H as [Hl Hr].
  cbn [dedent_lines].
  assert (Hw : (if negb (String.eqb l "") && String.eqb "" "" then
                  match lead_ws_match l with
                  | Some m => if Nat.ltb 2 (String.length m) then drop 2 m else m
                  | None => ""
                  end else "") = "").
  { destruct l as [|c l']; [reflexivity|]. apply negb_true_iff in Hl.
    unfold lead_ws_match. cbn [lead_len]. rewrite Hl. reflexivity. }
  rewrite Hw, TrimPrefix_empty, IH by exact Hr. reflexivity.
Qed.

Lemma Contains_char_cons : forall c r d,
    Contains (String c r) (String d "") = false -> c <> d /\ Contains r (String d "") = false.
Proof.
  intros c r d H. split; [|exact (Contains_tail _ _ _ H)].
  intros ->. rewrite (Contains_complete (String d "") (String d r)) in H; [discriminate|].
  exists "", r. reflexivity.
Qed.

Lemma replace_backtick_J : forall t,
    Contains t "`" = false ->
    replace_from "`" backtickPlaceholder 0 (Join (split_char "010"%char t) newlinePlaceholder)
    = Join (split_char "010"%char t) newlinePlaceholder.
Proof.
  induction t as [|c r IH]; intros H; [reflexivity|].
  destruct (Contains_char_cons _ _ _ H) as [Hc Hr].
  rewrite Join_split_cons. destruct (Ascii.eqb c "010"%char).
  - cbn. rewrite IH by exact Hr. reflexivity.
  - cbn [replace_from]. rewrite IH by exact Hr.
    destruct (String.prefix "`" (String c _)) eqn:E; [|reflexivity].
    exfalso. revert E. cbn [String.prefix]. destruct (ascii_dec _ _) as [e|]; [intros _; apply Hc; symmetry; exact e | discriminate].
Qed.

Lemma replace_from_skip : forall old new x y,
    replace_from old new (String.length x) (x ++ y) = replace_from old new 0 y.
Proof. induction x as [|c x IH]; intros y; [reflexivity|]. cbn. apply IH. Qed.

Lemma replace_from_hit : forall old new y,
    old <> "" -> replace_from old new 0 (old ++ y) = new ++ replace_from old new 0 y.
Proof.
  intros [|c o] new y H; [contradiction|].
  change ((String c o) ++ y) with (String c (o ++ y)). cbn [replace_from].
  change (String c (o ++ y)) with (String c o ++ y) at 1. rewrite prefix_app.
  cbn [String.length]. rewrite Nat.sub_succ, Nat.sub_0_r, replace_from_skip. reflexivity.
Qed.

Lemma replace_newline_J : forall t,
    Contains t "^" = false ->
    replace_from newlinePlaceholder nl 0 (Join (split_char "010"%char t) newlinePlaceholder) = t.
Proof.
  induction t as [|c r IH]; intros H; [reflexivity|].
  destruct (Contains_char_cons _ _ _ H) as [Hc Hr].
  rewrite Join_split_cons. destruct (Ascii.eqb_spec c "010"%char) as [->|Hn].
  - rewrite replace_from_hit by discriminate. rewrite IH by exact Hr. reflexivity.
  - cbn [replace_from]. rewrite IH by exact Hr.
    destruct (String.prefix newlinePlaceholder (String c _)) eqn:E; [|reflexivity].
    exfalso. revert E. unfold newlinePlaceholder. cbn [String.prefix]. destruct (ascii_dec _ _) as [e|]; [intros _; apply Hc; symmetry; exact e | discriminate].
Qed.

(** X15 ([toEscapedFromCurlyString], [toCurlyStringFromEscaped]): escaping a block body then unescaping it gives back the body between braces, when no line is indented and the body holds no caret, backtick or backslash. *)
Theorem escape_unescape_roundtrip : forall t,
    no_indent t = true ->
    Contains t "^" = false -> Contains t "`" = false -> Contains t "\" = false ->
    toCurlyStringFromEscaped (toEscapedFromCurlyString t) = "{" ++ t ++ "}".
Proof.
  intros t Hi Hc Hb Hs. unfold toCurlyStringFromEscaped, toEscapedFromCurlyString, unescapeMultiline.
  unfold no_indent in Hi. rewrite (dedent_lines_noindent _ Hi). unfold SplitLines.
  assert (E1 : forall s, ReplaceAll s "`" backtickPlaceholder
                         = replace_from "`" backtickPlaceholder 0 s) by reflexivity.
  assert (E2 : forall s new, ReplaceAll s newlinePlaceholder new
                             = replace_from newlinePlaceholder new 0 s) by reflexivity.
  rewrite E1, replace_backtick_J, E2, replace_newline_J by assumption.
  rewrite (ReplaceAll_absent t "\\" "\") by (discriminate || exact (Contains_false_app_l t "\" "\" Hs)).
  rewrite (ReplaceAll_absent t backtickPlaceholder "`")
    by (discriminate || exact (Contains_false_app_l t "^" "^BACKTICK^^" Hc)).
  reflexivity.
Qed.

Lemma envLoop_comments : forall l inv vars out vars',
    envLoop l inv vars = Ok (out, vars') ->
    out = app inv (map invalidVarComment (filter unconvertible l)).
Proof.
  induction l as [|e r IH]; intros inv vars out vars' H; cbn [envLoop] in H.
  - injection H as <- _. symmetry. apply app_nil_r.
  - unfold ToEnv in H. cbn [filter]. unfold unconvertible at 1.
    destruct (mem_string (env_Key e) unusedEnvVars) eqn:Em; cbn [negb andb res_bind] in *.
    + exact (IH _ _ _ _ H).
    + destruct (StringValue (env_Value e)) as [v|]; [|discriminate]. cbn [res_bind] in H.
      destruct (Contains v "$"); rewrite (IH _ _ _ _ H); [|reflexivity].
      rewrite <- app_assoc. reflexivity.
Qed.

(** X11 ([toEnvYamlLines]): on success the output starts with one warning comment per unconvertible entry, in the order of the entries, before any marshalled line. *)
Theorem toEnvYamlLines_comments_first : forall marshal l out,
    toEnvYamlLines marshal l = Ok out ->
    exists rest, out = app (map invalidVarComment (filter unconvertible l)) rest.
Proof.
  intros marshal l out H. unfold toEnvYamlLines in H.
  destruct (envLoop l [] []) as [[inv vars]| |] eqn:E; try discriminate.
  cbn [res_bind] in H. apply envLoop_comments in E. cbn [app] in E. subst inv.
  destruct vars as [|v vs].
  - injection H as <-. exists []. symmetry. apply app_nil_r.
  - cbn [res_bind] in H. destruct (marshal (v :: vs)) as [b| |]; try discriminate.
    injection H as <-. eexists. reflexivity.
Qed.

Lemma TrimRight_dq_last : forall x,
    x <> "" -> HasPrefix (rev_string x) dq = false -> TrimRight (x ++ dq) dq = x.
Proof.
  intros x Hne H. unfold TrimRight. rewrite rev_string_app.
  change (rev_string dq) with (String "034"%char "").
  assert (Hq : forall y, TrimLeft (String "034"%char y) dq = TrimLeft y dq) by reflexivity.
  cbn [append]. rewrite Hq.
  destruct (rev_string x) as [|c' r'] eqn:Er.
  - exfalso. apply (f_equal rev_string) in Er. rewrite rev_string_involutive in Er. exact (Hne Er).
  - unfold HasPrefix in H. cbn [String.prefix dq] in H.
    destruct (Ascii.ascii_dec "034"%char c') as [Hc'|Hc']; [destruct r'; discriminate|].
    assert (Ec' : Ascii.eqb c' "034"%char = false) by (apply Ascii.eqb_neq; intros ->; apply Hc'; reflexivity).
    cbn [TrimLeft]. replace (in_cutset c' dq) with false by (cbn; rewrite Ec'; reflexivity).
    rewrite <- Er. apply rev_string_involutive.
Qed.

(** X16 ([imageFromContainerStep]): the image is the single unnamed string argument, or the [name] argument among several; a single named [name] argument holding a non-empty string gives its printed form with the closing quote trimmed. *)
Theorem imageFromContainerStep_cases : forall name s args nested,
    edge_quoted s = false ->
    imageFromContainerStep (mkStep name [Unnamed (VString s)] nested) = s
    /\ (length args <> 1 -> named_name_arg args = Some (VString s) ->
        imageFromContainerStep (mkStep name args nested) = s)
    /\ (s <> "" ->
        imageFromContainerStep (mkStep name [Named "name" (VString s)] nested)
        = "key: name, val: " ++ dq ++ s).
Proof.
  intros name s args nested H. split; [|split].
  - unfold imageFromContainerStep, getArg, removeQuotesAndTrim. cbn [step_args].
    apply Trim_dq_quoted, H.
  - intros Hl Hn. unfold imageFromContainerStep. cbn [step_args].
    destruct args as [|a [|b r]]; [discriminate | cbn in Hl; lia |].
    rewrite Hn. unfold removeQuotesAndTrim. apply Trim_dq_quoted, H.
  - intros Hne. unfold imageFromContainerStep, getArg, removeQuotesAndTrim, Trim.
    cbn [step_args ModelStepArg_ToString Value_ToString].
    replace (TrimLeft ("key: " ++ "name" ++ ", val: " ++ dq ++ s ++ dq) dq)
      with (("key: name, val: " ++ dq ++ s) ++ dq)
      by (rewrite <- !append_assoc; reflexivity).
    apply TrimRight_dq_last; [destruct s; discriminate|].
    unfold edge_quoted in H. apply orb_false_iff in H as [_ H].
    rewrite !rev_string_app. destruct (rev_string s) as [|c r] eqn:Er.
    + exfalso. apply (f_equal rev_string) in Er. rewrite rev_string_involutive in Er. exact (Hne Er).
    + revert H. unfold HasPrefix. cbn [append String.prefix dq].
      destruct (Ascii.ascii_dec _ _); [destruct r|]; cbn [String.prefix]; tauto.
Qed.

(** X17 ([ParseJenkinsfile] text preprocessing): a text without braces, single quotes, triple double quotes, escaped dollars and [.toLowerCase()] passes the preprocessing unchanged. *)
Theorem ParseJenkinsfile_text_plain : forall jf,
    Contains jf "{" = false -> Contains jf "'" = false -> Contains jf tdq = false ->
    Contains jf "\$" = false -> Contains jf ".toLowerCase()" = false ->
    ParseJenkinsfile_text jf = Ok jf.
Proof.
  intros jf H1 H2 H3 H4 H5. unfold ParseJenkinsfile_text.
  rewrite (ReplaceAll_absent jf "\$") by (discriminate || exact H4).
  rewrite (ReplaceAll_absent jf ".toLowerCase()") by (discriminate || exact H5).
  unfold GetBlocks. cbn [GetBlocks_fuel]. rewrite find_blocks_brace by exact H1.
  cbn [res_bind fold_left]. unfold escapeSingleQuotedOrMultilineStrings.
  rewrite (find_triple_absent tsq jf 0) by (exact (Contains_false_app_l jf "'" "''" H2)).
  cbn [fold_left]. rewrite (find_triple_absent tdq jf 0) by exact H3. cbn [fold_left].
  rewrite scan_keeps by exact H2. reflexivity.
Qed.

Lemma concat_app_sep : forall sep l1 l2, l1 <> [] -> l2 <> [] ->
    String.concat sep (app l1 l2) = String.concat sep l1 ++ sep ++ String.concat sep l2.
Proof.
  intros sep l1. induction l1 as [|x l1 IH]; intros l2 H1 H2; [contradiction|].
  destruct l1 as [|y l1'].
  - destruct l2 as [|z l2']; [contradiction|]. reflexivity.
  - transitivity (x ++ sep ++ String.concat sep (app (y :: l1') l2)); [reflexivity|].
    rewrite (IH l2 ltac:(discriminate) H2).
    change (String.concat sep (x :: y :: l1')) with (x ++ sep ++ String.concat sep (y :: l1')).
    rewrite <- !append_assoc. reflexivity.
Qed.

(** A non-empty block of consecutive lines shows up, joined, in the joined whole. *)
Lemma Join_sub : forall A blk B sep, blk <> [] ->
    IsSubstring (Join blk sep) (Join (app A (app blk B)) sep).
Proof.
  intros A blk B sep Hb. unfold Join.
  assert (H1 : exists b, String.concat sep (app blk B) = String.concat sep blk ++ b).
  { destruct B as [|z B'].
    - exists "". rewrite app_nil_r, append_empty_r. reflexivity.
    - exists (sep ++ String.concat sep (z :: B')). apply concat_app_sep; [exact Hb|discriminate]. }
  destruct H1 as [b Hcat].
  destruct A as [|y A'].
  - exists "", b. exact Hcat.
  - rewrite (concat_app_sep sep (y :: A') (app blk B)) by
      (discriminate || (destruct blk; [contradiction|discriminate])).
    rewrite Hcat. exists (String.concat sep (y :: A') ++ sep), b.
    rewrite <- !append_assoc. reflexivity.
Qed.

(** With no spaces in the names, the job [prLoop] writes for a stage that
    has predecessors (earlier in [stages], or the stage [prev] before them)
    opens with its name and a [needs] list naming all of them in order. *)
Lemma prLoop_job_needs : forall h stages prev acc acc' h' before pre p post,
    no_space_names h = true ->
    prLoop prev stages acc h = (Ok acc', h') ->
    a_needs acc = map (nameAt h) before ->
    stages = app pre (p :: post) ->
    (prev <> None \/ pre <> []) ->
    exists A B, a_lines acc' = app A (app (jobHead h p (app before (app (opt_list prev) pre))) B).
Proof.
  intros h stages. induction stages as [|p0 rest IH];
    intros prev acc acc' h' before pre p post Hn H Hb Hs Hc;
    [destruct pre; discriminate|].
  cbn [prLoop] in H. unfold st_bind at 1, st_get at 1, get_stage at 1 in H.
  destruct (nth_error h p0) as [s0|] eqn:Hp; [|discriminate].
  rewrite (rename_stage_id s0 (no_space_names_In h s0 Hn (nth_error_In _ _ Hp))) in H.
  unfold st_bind at 1, st_put at 1 in H. rewrite (set_nth_same _ _ _ _ Hp) in H.
  destruct prev as [q|].
  - unfold st_bind, st_get, st_ret, get_stage in H.
    destruct (nth_error h q) as [sq|] eqn:Hq; [|discriminate].
    destruct (Stage_toImageAndSteps s0 2) as [[img ss] iss] eqn:Ei.
    set (needs := app (a_needs acc) [stage_Name sq]) in H.
    assert (Hneeds : needs = map (nameAt h) (app before [q])).
    { unfold needs. rewrite map_app, Hb. cbn [map].
      replace (nameAt h q) with (stage_Name sq) by (unfold nameAt; rewrite Hq; reflexivity).
      reflexivity. }
    destruct pre as [|x pre'].
    + cbn [app] in Hs. injection Hs as <- <-.
      destruct (prLoop_spec h _ _ _ _ _ _ (same_entries_refl h) H) as [_ [[suf Hsuf] _]].
      cbn [a_lines] in Hsuf. rewrite Hsuf. unfold jobHead.
      replace (nameAt h p0) with (stage_Name s0) by (unfold nameAt; rewrite Hp; reflexivity).
      cbn [opt_list]. rewrite app_nil_r, <- Hneeds.
      rewrite <- !app_assoc. eexists (a_lines acc), _. reflexivity.
    + cbn [app] in Hs. injection Hs as -> Hs'.
      pose proof (IH (Some x) _ _ _ (app before [q]) pre' p post Hn H) as IH'.
      cbn [a_needs] in IH'.
      destruct (IH' Hneeds Hs' ltac:(left; discriminate)) as [A [B HAB]].
      exists A, B. rewrite HAB. cbn [opt_list]. rewrite <- !app_assoc. reflexivity.
  - unfold st_bind, st_ret in H.
    destruct (Stage_toImageAndSteps s0 2) as [[img ss] iss] eqn:Ei.
    destruct pre as [|x pre']; [destruct Hc as [Hc|Hc]; exfalso; apply Hc; reflexivity|].
    cbn [app] in Hs. injection Hs as -> Hs'.
    pose proof (IH (Some x) _ _ _ before pre' p post Hn H) as IH'.
    cbn [a_needs] in IH'.
    destruct (IH' Hb Hs' ltac:(left; discriminate)) as [A [B HAB]].
    exists A, B. rewrite HAB. reflexivity.
Qed.

(** X18 ([prOrReleasePipelineAsYAML]): when stage names have no spaces, every stage that follows other stages in the list gets its own job, which opens with the stage name, [runs-on], [if: ${{ always() }}] and a [needs] line naming all the stages before it, in order. *)
Theorem prOrRelease_job_needs_previous : forall marshal iter stages isRel h out flag h' pre p post,
    prOrReleasePipelineAsYAML marshal iter stages isRel h = (Ok (out, flag), h') ->
    no_space_names h = true -> stages = app pre (p :: post) -> pre <> [] ->
    IsSubstring (Join (jobHead h p pre) nl) out.
Proof.
  intros marshal iter stages isRel h out flag h' pre p post H Hn Hs Hne.
  unfold prOrReleasePipelineAsYAML in H. unfold st_bind at 1 in H.
  destruct (prLoop None stages _ h) as [[acc| |] h1] eqn:Hl; try discriminate.
  destruct (prLoop_job_needs h _ None _ _ _ [] pre p post Hn Hl eq_refl Hs (or_intror Hne))
    as [A [B HAB]].
  unfold st_bind, st_lift, st_ret in H.
  destruct (toEnvYamlLines marshal (iter (a_env acc))) as [envY| |]; try discriminate.
  assert (Hpre : forall envY', exists suf,
             match envY' with
             | [] => a_lines acc
             | _ => if containsRealEnvLines envY'
                    then app (a_lines acc) (indentLine "environment:" 3 :: map (fun l => indentLine l 4) envY')
                    else app (a_lines acc) (map (fun l => indentLine l 3) envY')
             end = app (a_lines acc) suf).
  { intros [|e es]; [exists []; symmetry; apply app_nil_r|].
    destruct (containsRealEnvLines (e :: es)); eexists; reflexivity. }
  destruct (Hpre envY) as [suf Hsuf]. clear Hpre.
  cbv zeta in H. rewrite Hsuf in H.
  destruct (a_stepLines acc) as [|l0 ls]; injection H as <- _ _;
    rewrite HAB; rewrite <- ?app_assoc; apply Join_sub; discriminate.
Qed.

(** ** Witnesses: the theorems above applied at concrete inputs *)

Lemma escapeUnsupported_unchanged_witness :
  escapeUnsupportedFieldsInContext
    (mkCurly "steps" [mkCurly "sh" [] "sh {make}" "sh `make`"] "steps {sh {make}}" "S")
    "steps" supportedSteps "steps {sh {make}}" false = "steps {sh {make}}".
Proof.
  exact (escapeUnsupported_unchanged
           (mkCurly "steps" [mkCurly "sh" [] "sh {make}" "sh `make`"] "steps {sh {make}}" "S")
           "steps" supportedSteps "steps {sh {make}}" false
           ltac:(vm_compute; right; repeat constructor)).
Defined.

Lemma dir_container_scope_witness :
  ("dir" = "dir" ->
     Forall (fun x => sd_dir x = Trim (getArg (mkStep "dir" [Unnamed (VString "sub")] [Fixtures.sh "make"])) "./"
                      /\ sd_image x = "maven")
            (nestedStepsWithDirAndImage (mkStep "dir" [Unnamed (VString "sub")] [Fixtures.sh "make"]) "." "maven"))
  /\ ("dir" = "container" ->
     Forall (fun x => sd_dir x = "."
                      /\ sd_image x = imageFromContainerStep (mkStep "dir" [Unnamed (VString "sub")] [Fixtures.sh "make"]))
            (nestedStepsWithDirAndImage (mkStep "dir" [Unnamed (VString "sub")] [Fixtures.sh "make"]) "." "maven")).
Proof.
  exact (dir_container_scope "dir" [Unnamed (VString "sub")] [Fixtures.sh "make"] "." "maven"
           ltac:(discriminate) ltac:(reflexivity)).
Defined.

Lemma getArg_single_string_witness :
  getArg (mkStep "dir" [Unnamed (VString "sub")] [Fixtures.sh "make"]) = "sub".
Proof.
  exact (getArg_single_string "dir" "sub" [Fixtures.sh "make"] ltac:(reflexivity)).
Defined.

(** [V = "$HOME"] and [APP_NAME = credentials('app')]. *)
Lemma toEnvYamlLines_nothing_converted_witness :
  toEnvYamlLines Fixtures.marshal_plain
    [ {| env_Key := "V"; env_Value := {| StringValue := Some "$HOME"; Credential := None |} |};
      Fixtures.appNameCred ]
  = Ok (map invalidVarComment
          (filter (fun e => negb (mem_string (env_Key e) unusedEnvVars))
             [ {| env_Key := "V"; env_Value := {| StringValue := Some "$HOME"; Credential := None |} |};
               Fixtures.appNameCred ])).
Proof.
  exact (toEnvYamlLines_nothing_converted Fixtures.marshal_plain
           [ {| env_Key := "V"; env_Value := {| StringValue := Some "$HOME"; Credential := None |} |};
             Fixtures.appNameCred ] ltac:(reflexivity)).
Defined.

Lemma toEnvYamlLines_comments_first_witness :
  let l := [ {| env_Key := "A"; env_Value := {| StringValue := Some "1"; Credential := None |} |};
             {| env_Key := "V"; env_Value := {| StringValue := Some "$HOME"; Credential := None |} |} ] in
  let out := ["# The variable 'V' has the value '$HOME', which cannot be converted."; "- A: 1"] in
  toEnvYamlLines Fixtures.marshal_plain l = Ok out
  /\ exists rest, out = app (map invalidVarComment (filter unconvertible l)) rest.
Proof.
  cbv zeta.
  assert (E : toEnvYamlLines Fixtures.marshal_plain
                [ {| env_Key := "A"; env_Value := {| StringValue := Some "1"; Credential := None |} |};
                  {| env_Key := "V"; env_Value := {| StringValue := Some "$HOME"; Credential := None |} |} ]
              = Ok ["# The variable 'V' has the value '$HOME', which cannot be converted."; "- A: 1"])
    by (vm_compute; reflexivity).
  split; [exact E|].
  exact (toEnvYamlLines_comments_first _ _ _ E).
Defined.

Lemma GetBlocks_no_brace_witness : GetBlocks "sh 'make'" = Ok [].
Proof. exact (GetBlocks_no_brace "sh 'make'" ltac:(reflexivity)). Defined.

Lemma escapeSingleQuoted_no_quotes_witness :
  escapeSingleQuotedOrMultilineStrings ("sh " ++ dq ++ "make" ++ dq) = "sh " ++ dq ++ "make" ++ dq.
Proof.
  exact (escapeSingleQuoted_no_quotes ("sh " ++ dq ++ "make" ++ dq) ltac:(reflexivity) ltac:(reflexivity)).
Defined.

Lemma escape_unescape_roundtrip_witness :
  toCurlyStringFromEscaped (toEscapedFromCurlyString ("make" ++ nl ++ "make test"))
  = "{" ++ ("make" ++ nl ++ "make test") ++ "}".
Proof.
  exact (escape_unescape_roundtrip ("make" ++ nl ++ "make test")
           ltac:(reflexivity) ltac:(reflexivity) ltac:(reflexivity) ltac:(reflexivity)).
Defined.

Lemma imageFromContainerStep_cases_witness :
  imageFromContainerStep (mkStep "container" [Unnamed (VString "maven:3")] [Fixtures.sh "make"]) = "maven:3"
  /\ (length [Named "name" (VString "maven:3"); Named "ttyEnabled" (VBool true)] <> 1 ->
      named_name_arg [Named "name" (VString "maven:3"); Named "ttyEnabled" (VBool true)]
      = Some (VString "maven:3") ->
      imageFromContainerStep
        (mkStep "container" [Named "name" (VString "maven:3"); Named "ttyEnabled" (VBool true)]
                [Fixtures.sh "make"]) = "maven:3")
  /\ ("maven:3" <> "" ->
      imageFromContainerStep (mkStep "container" [Named "name" (VString "maven:3")] [Fixtures.sh "make"])
      = "key: name, val: " ++ dq ++ "maven:3").
Proof.
  exact (imageFromContainerStep_cases "container" "maven:3"
           [Named "name" (VString "maven:3"); Named "ttyEnabled" (VBool true)]
           [Fixtures.sh "make"] ltac:(reflexivity)).
Defined.

Lemma ParseJenkinsfile_text_plain_witness : ParseJenkinsfile_text "sh make" = Ok "sh make".
Proof.
  exact (ParseJenkinsfile_text_plain "sh make"
           ltac:(reflexivity) ltac:(reflexivity) ltac:(reflexivity) ltac:(reflexivity)
           ltac:(reflexivity)).
Defined.

Lemma prOrRelease_job_needs_previous_witness :
  let h := [Fixtures.buildStage; Fixtures.prStage; Fixtures.masterStage] in
  let r := prOrReleasePipelineAsYAML Fixtures.marshal_plain Fixtures.iter_insertion [0; 1; 2] false h in
  r = (Ok (Fixtures.out_of r, false), h)
  /\ IsSubstring (Join (jobHead h 1 [0]) nl) (Fixtures.out_of r)
  /\ IsSubstring (Join (jobHead h 2 [0; 1]) nl) (Fixtures.out_of r).
Proof.
  cbv zeta.
  assert (E : prOrReleasePipelineAsYAML Fixtures.marshal_plain Fixtures.iter_insertion [0; 1; 2] false
                [Fixtures.buildStage; Fixtures.prStage; Fixtures.masterStage]
              = (Ok (Fixtures.out_of (prOrReleasePipelineAsYAML Fixtures.marshal_plain Fixtures.iter_insertion
                                        [0; 1; 2] false
                                        [Fixtures.buildStage; Fixtures.prStage; Fixtures.masterStage]), false),
                 [Fixtures.buildStage; Fixtures.prStage; Fixtures.masterStage]))
    by (vm_compute; reflexivity).
  split; [exact E|]. split.
  - exact (prOrRelease_job_needs_previous Fixtures.marshal_plain Fixtures.iter_insertion [0; 1; 2] false
             [Fixtures.buildStage; Fixtures.prStage; Fixtures.masterStage] _ _ _ [0] 1 [2]
             E ltac:(reflexivity) ltac:(reflexivity) ltac:(discriminate)).
  - exact (prOrRelease_job_needs_previous Fixtures.marshal_plain Fixtures.iter_insertion [0; 1; 2] false
             [Fixtures.buildStage; Fixtures.prStage; Fixtures.masterStage] _ _ _ [0; 1] 2 []
             E ltac:(reflexivity) ltac:(reflexivity) ltac:(discriminate)).
Defined.

End Extras.
